(** * HotSearchSQLiteService: the ranked term store

    A shallow embedding of [server/core/services/hotSearchSQLite.ts]:
    the service class, the two database handles it can hold (the
    better-sqlite3 table and the in-memory object literal), and the
    properties of recording, ranking, eviction, filtering and the
    password-gated administration calls. *)

From Stdlib Require Import Ascii String.
From Stdlib Require Import List ZArith NArith Bool Lia Permutation Sorted.
Import ListNotations.

Set Implicit Arguments.
Open Scope Z_scope.

(** ** JavaScript strings

    A JavaScript string is a sequence of UTF-16 code units; [===], [!==],
    [length], [trim] and regular expressions without the [u] flag all work
    on code units. *)

Definition jsstring := list N.

Fixpoint str_eqb (a b : jsstring) : bool :=
  match a, b with
  | [], [] => true
  | x :: a', y :: b' => N.eqb x y && str_eqb a' b'
  | _, _ => false
  end.

Definition of_ascii (s : string) : jsstring :=
  map (fun c => N_of_ascii c) (list_ascii_of_string s).

(** WhiteSpace and LineTerminator code points, the ones [trim] strips. *)
Definition is_white (c : N) : bool :=
  ((9 <=? c) && (c <=? 13) || (c =? 32) || (c =? 160) || (c =? 5760)
   || (8192 <=? c) && (c <=? 8202) || (c =? 8232) || (c =? 8233)
   || (c =? 8239) || (c =? 8287) || (c =? 12288) || (c =? 65279))%N.

Fixpoint trimStart (s : jsstring) : jsstring :=
  match s with
  | c :: s' => if is_white c then trimStart s' else s
  | [] => []
  end.

Definition trimEnd (s : jsstring) : jsstring := rev (trimStart (rev s)).

Definition trim (s : jsstring) : jsstring := trimEnd (trimStart s).

(** ** The content filter

    [isForbidden] tests the term against two regular expressions with the
    [i] flag; each is an alternation of literal words, so [test] succeeds
    when one of the words occurs somewhere in the term, letters compared
    after case folding.  Folding a code unit outside ASCII never yields an
    ASCII letter (the regular expressions have no [u] flag) nor one of the
    ideographs of the first pattern, so only the ASCII letters need
    folding here. *)

Definition canonicalize (c : N) : N :=
  if ((97 <=? c) && (c <=? 122))%N then (c - 32)%N else c.

Fixpoint starts_with_ci (word s : jsstring) : bool :=
  match word, s with
  | [], _ => true
  | p :: word', c :: s' =>
      N.eqb (canonicalize p) (canonicalize c) && starts_with_ci word' s'
  | _ :: _, [] => false
  end.

Fixpoint includes_ci (word s : jsstring) : bool :=
  starts_with_ci word s
  || match s with
     | [] => false
     | _ :: s' => includes_ci word s'
     end.

(** An alternation [w1|w2|...] with the [i] flag. *)
Definition regex_test (alternatives : list jsstring) (s : jsstring) : bool :=
  existsb (fun w => includes_ci w s) alternatives.

(** [/政治|暴力|色情|赌博|毒品/i] and [/fuck|shit|bitch/i], the words of the
    first as code units. *)
Definition forbiddenPatterns : list (list jsstring) :=
  [ [ [25919; 27835]; [26292; 21147]; [33394; 24773];
      [36172; 21338]; [27602; 21697] ]%N;
    [ of_ascii "fuck"; of_ascii "shit"; of_ascii "bitch" ] ].

Definition isForbidden (term : jsstring) : bool :=
  existsb (fun pattern => regex_test pattern term) forbiddenPatterns.

(** ** Values of the service interface *)

Record HotSearchItem := {
  term : jsstring;
  score : Z;
  lastSearched : Z;
  createdAt : Z
}.

Record HotSearchStats := {
  total : Z;
  topTerms : list HotSearchItem
}.

(** The [{ success, message }] object of the administration calls. *)
Record Reply := {
  success : bool;
  message : jsstring
}.

Definition MAX_ENTRIES : Z := 50.

(** ** Completions and the state monad of the service

    A call either returns or throws, and it may have changed the state of
    the database it holds before doing either. *)

Inductive exn :=
| TypeError
| RangeError
| SqliteError.

Inductive completion (A : Type) :=
| Normal (a : A)
| Throw (e : exn).
Arguments Normal {A} a.
Arguments Throw {A} e.

Definition M (S A : Type) : Type := S -> completion A * S.

Definition ret {S A} (a : A) : M S A := fun s => (Normal a, s).

Definition throw {S A} (e : exn) : M S A := fun s => (Throw e, s).

Definition bind {S A B} (m : M S A) (k : A -> M S B) : M S B :=
  fun s =>
    match m s with
    | (Normal a, s') => k a s'
    | (Throw e, s') => (Throw e, s')
    end.

(** [try { m } catch (error) { h error }] *)
Definition try_catch {S A} (m : M S A) (h : exn -> M S A) : M S A :=
  fun s =>
    match m s with
    | (Normal a, s') => (Normal a, s')
    | (Throw e, s') => h e s'
    end.

Notation "x <- m ;; k" := (bind m (fun x => k))
  (at level 61, m at next level, right associativity).
Notation "m ;;; k" := (bind m (fun _ => k))
  (at level 61, right associativity).

(** ** The database handle, as the service uses it

    [this.db] is untyped in the source: the service only relies on
    [prepare(sql)] giving back an object on which it calls [run], [get] or
    [all].  The statements are the seven SQL texts of the source. *)

Inductive sql :=
| INSERT_ON_CONFLICT
    (* INSERT INTO hot_searches (term, score, last_searched, created_at)
       VALUES (?, 1, ?, ?)
       ON CONFLICT(term) DO UPDATE SET
         score = score + 1, last_searched = ? *)
| SELECT_RANKED
    (* SELECT term, score, last_searched as lastSearched,
              created_at as createdAt
       FROM hot_searches
       ORDER BY score DESC, last_searched DESC LIMIT ? *)
| DELETE_NOT_IN_TOP
    (* DELETE FROM hot_searches WHERE id NOT IN
         (SELECT id FROM hot_searches
          ORDER BY score DESC, last_searched DESC LIMIT ?) *)
| DELETE_ALL
    (* DELETE FROM hot_searches *)
| DELETE_TERM
    (* DELETE FROM hot_searches WHERE term = ? *)
| SELECT_COUNT
    (* SELECT COUNT( * ) as total FROM hot_searches *)
| SELECT_TOP10.
    (* SELECT term, score, last_searched as lastSearched,
              created_at as createdAt
       FROM hot_searches
       ORDER BY score DESC, last_searched DESC LIMIT 10 *)

(** Arguments of a statement call; a parameter that was not passed reads
    as [Undefined]. *)
Inductive jsval :=
| Undefined
| Str (s : jsstring)
| Num (n : Z).

Definition jsval_eqb (a b : jsval) : bool :=
  match a, b with
  | Undefined, Undefined => true
  | Str x, Str y => str_eqb x y
  | Num x, Num y => Z.eqb x y
  | _, _ => false
  end.

Definition arg (i : nat) (args : list jsval) : jsval := nth i args Undefined.

(** What [run] returns; [changes] is the only field the service reads. *)
Record RunResult := { changes : Z }.

(** The object the in-memory map stores under a key. *)
Record MemoryItem := {
  m_term : jsval;
  m_score : jsval;
  m_lastSearched : jsval;
  m_createdAt : jsval
}.

(** What [get] returns: the row of the count query, or whatever else the
    handle gives back. *)
Inductive GetRow :=
| CountRow (total : Z)
| ItemRow (item : MemoryItem).

Record Statement (S : Type) := {
  run : option (list jsval -> M S (option RunResult));
  get : option (list jsval -> M S (option GetRow));
  all : option (list jsval -> M S (list HotSearchItem))
}.

Record Database (S : Type) := {
  prepare : sql -> M S (Statement S)
}.

(** [stmt.method(args)]: calling a property that is not there is a
    TypeError. *)
Definition invoke {S A} (method : option (list jsval -> M S A))
    (args : list jsval) : M S A :=
  match method with
  | Some f => f args
  | None => throw TypeError
  end.

(** [result.changes]: reading a property of [undefined] is a TypeError. *)
Definition read_changes {S} (result : option RunResult) : M S Z :=
  match result with
  | Some r => ret (changes r)
  | None => throw TypeError
  end.

(** [countResult?.total || 0] *)
Definition total_or_zero (countResult : option GetRow) : Z :=
  match countResult with
  | Some (CountRow n) => if n =? 0 then 0 else n
  | Some (ItemRow _) => 0
  | None => 0
  end.

(** ** The durable handle: the [hot_searches] table behind better-sqlite3

    The table is the list of its rows in rowid order, with the counter
    that [AUTOINCREMENT] keeps.  The service never reads an [id] back:
    all that matters of the ids is that a new row gets one that no row
    has.  [term] is [UNIQUE] and compared code unit by code unit (terms
    are well-formed strings, on which this is the table's byte-wise
    comparison); the integer columns are [Z]. *)

Module Sql.

Record Row := {
  id : Z;
  term : jsstring;
  score : Z;
  last_searched : Z;
  created_at : Z
}.

Record Table := {
  rows : list Row;
  seq : Z
}.

(** The table right after [CREATE TABLE IF NOT EXISTS] on a new file. *)
Definition empty : Table := {| rows := []; seq := 0 |}.

(** [ORDER BY score DESC, last_searched DESC]: [a] may come before [b]. *)
Definition before (a b : Row) : bool :=
  (score b <? score a)
  || ((score a =? score b) && (last_searched b <=? last_searched a)).


(** Rows that the two sort keys do not separate keep the order of the
    table scan. *)
Fixpoint place (x : Row) (sorted : list Row) : list Row :=
  match sorted with
  | [] => [x]
  | y :: rest => if before x y then x :: y :: rest else y :: place x rest
  end.

Fixpoint order_by (l : list Row) : list Row :=
  match l with
  | [] => []
  | x :: l' => place x (order_by l')
  end.

(** A number that [LIMIT ?] takes: one that converts to a 64-bit
    integer strictly inside the range.  Any other (the least 64-bit
    integer and below, among them) ends the statement with a datatype
    mismatch. *)
Definition limit_ok (n : Z) : bool :=
  (-9223372036854775808 <? n) && (n <? 9223372036854775807).

(** [LIMIT n], for a number it takes: a negative [n] means no upper bound
    on the rows. *)
Definition limit (n : Z) (l : list Row) : list Row :=
  if n <? 0 then l else firstn (Z.to_nat n) l.

(** The rows [LIMIT n] leaves out. *)
Definition beyond (n : Z) (l : list Row) : list Row :=
  if n <? 0 then [] else skipn (Z.to_nat n) l.

Definition has_term (t : jsstring) (tb : Table) : bool :=
  existsb (fun r => str_eqb (term r) t) (rows tb).

(** [VALUES (t, 1, ls, ca)], under the next id. *)
Definition inserted (i : Z) (t : jsstring) (ls ca : Z) : Row :=
  {| id := i; term := t; score := 1; last_searched := ls; created_at := ca |}.

(** [DO UPDATE SET score = score + 1, last_searched = ls'] *)
Definition updated (ls' : Z) (r : Row) : Row :=
  {| id := id r; term := term r; score := score r + 1;
     last_searched := ls'; created_at := created_at r |}.

(** [INSERT ... VALUES (t, 1, ls, ca) ON CONFLICT(term) DO UPDATE SET
    score = score + 1, last_searched = ls'].  The statement draws an id
    from the counter before it meets the conflict, so the counter moves on
    the update as on the insert. *)
Definition insert_on_conflict (t : jsstring) (ls ca ls' : Z) (tb : Table)
  : Table :=
  if has_term t tb then
    {| rows := map (fun r => if str_eqb (term r) t then updated ls' r else r)
                 (rows tb);
       seq := seq tb + 1 |}
  else
    {| rows := rows tb ++ [inserted (seq tb + 1) t ls ca];
       seq := seq tb + 1 |}.

(** [DELETE ... WHERE id NOT IN (SELECT id ... ORDER BY ... LIMIT n)] *)
Definition in_ids (ids : list Z) (r : Row) : bool :=
  existsb (Z.eqb (id r)) ids.

Definition delete_not_in_top (n : Z) (tb : Table) : Table :=
  let top := map id (limit n (order_by (rows tb))) in
  {| rows := filter (in_ids top) (rows tb);
     seq := seq tb |}.

Definition delete_all (tb : Table) : Table :=
  {| rows := []; seq := seq tb |}.

Definition delete_term (t : jsstring) (tb : Table) : Table :=
  {| rows := filter (fun r => negb (str_eqb (term r) t)) (rows tb);
     seq := seq tb |}.

Definition count (tb : Table) : Z := Z.of_nat (length (rows tb)).

(** The row of a term, which [UNIQUE] makes the only one. *)
Definition find_term (t : jsstring) (tb : Table) : option Row :=
  find (fun r => str_eqb (term r) t) (rows tb).

(** The number of rows a [DELETE] removed. *)
Definition removed (old new : Table) : RunResult :=
  {| changes := count old - count new |}.

End Sql.

(** [SELECT term, score, last_searched as lastSearched, created_at as
    createdAt] *)
Definition select_columns (r : Sql.Row) : HotSearchItem :=
  {| term := Sql.term r; score := Sql.score r;
     lastSearched := Sql.last_searched r; createdAt := Sql.created_at r |}.

Module Sqlite.

(** A method better-sqlite3 refuses for the kind of statement ([get] and
    [all] on a statement that returns no data, [run] on one that
    does). *)
Definition refused {A} : option (list jsval -> M Sql.Table A) :=
  Some (fun _ => throw TypeError).

(** A write replaces the table and reports on the change. *)
Definition write (f : Sql.Table -> Sql.Table)
    (info : Sql.Table -> Sql.Table -> RunResult)
  : M Sql.Table (option RunResult) :=
  fun tb => (Normal (Some (info tb (f tb))), f tb).

Definition read {A} (f : Sql.Table -> A) : M Sql.Table A :=
  fun tb => (Normal (f tb), tb).

Definition statement (q : sql) : Statement Sql.Table :=
  match q with
  | INSERT_ON_CONFLICT =>
      {| run := Some (fun args =>
                  match args with
                  | [Str t; Num ls; Num ca; Num ls'] =>
                      write (Sql.insert_on_conflict t ls ca ls')
                            (fun _ _ => {| changes := 1 |})
                  | _ => throw RangeError
                  end);
         get := refused; all := refused |}
  | SELECT_RANKED =>
      {| run := refused; get := refused;
         all := Some (fun args =>
                  match args with
                  | [Num n] =>
                      if Sql.limit_ok n then
                        read (fun tb => map select_columns
                                (Sql.limit n (Sql.order_by (Sql.rows tb))))
                      else throw SqliteError
                  | _ => throw RangeError
                  end) |}
  | DELETE_NOT_IN_TOP =>
      {| run := Some (fun args =>
                  match args with
                  | [Num n] =>
                      if Sql.limit_ok n then
                        write (Sql.delete_not_in_top n) Sql.removed
                      else throw SqliteError
                  | _ => throw RangeError
                  end);
         get := refused; all := refused |}
  | DELETE_ALL =>
      {| run := Some (fun args =>
                  match args with
                  | [] => write Sql.delete_all Sql.removed
                  | _ => throw RangeError
                  end);
         get := refused; all := refused |}
  | DELETE_TERM =>
      {| run := Some (fun args =>
                  match args with
                  | [Str t] => write (Sql.delete_term t) Sql.removed
                  | _ => throw RangeError
                  end);
         get := refused; all := refused |}
  | SELECT_COUNT =>
      {| run := refused;
         get := Some (fun args =>
                  match args with
                  | [] => read (fun tb => Some (CountRow (Sql.count tb)))
                  | _ => throw RangeError
                  end);
         all := refused |}
  | SELECT_TOP10 =>
      {| run := refused; get := refused;
         all := Some (fun args =>
                  match args with
                  | [] =>
                      read (fun tb => map select_columns
                              (Sql.limit 10 (Sql.order_by (Sql.rows tb))))
                  | _ => throw RangeError
                  end) |}
  end.

Definition database : Database Sql.Table :=
  {| prepare := fun q => ret (statement q) |}.

End Sqlite.

(** ** The in-memory handle of [initMemoryFallback]

    An object literal with the properties [memoryStore], [prepare], [exec]
    and [prepareQuery].  The service only ever calls [prepare]; the
    statement it gets has [run] and [get] and nothing else ([all] is only
    on what [prepareQuery] returns). *)

Module Memory.

(** The contents of [memoryStore], a [Map] in insertion order. *)
Definition Store := list (jsval * MemoryItem).

Definition empty : Store := [].

Fixpoint map_set (k : jsval) (v : MemoryItem) (m : Store) : Store :=
  match m with
  | [] => [(k, v)]
  | (k', v') :: m' =>
      if jsval_eqb k' k then (k', v) :: m' else (k', v') :: map_set k v m'
  end.

Fixpoint map_get (k : jsval) (m : Store) : option MemoryItem :=
  match m with
  | [] => None
  | (k', v') :: m' => if jsval_eqb k' k then Some v' else map_get k m'
  end.

(** The objects [this] can stand for: the service, whose [db] property
    holds the handle, and the handle itself, which has no [db]. *)
Inductive object :=
| Service
| Handle.

Inductive value :=
| VUndefined
| VObject (o : object)
| VMap.

(** [o.db] *)
Definition get_db (o : object) : value :=
  match o with
  | Service => VObject Handle
  | Handle => VUndefined
  end.

(** [v.memoryStore]; reading a property of [undefined] throws. *)
Definition get_memoryStore (v : value) : M Store value :=
  match v with
  | VUndefined => throw TypeError
  | VObject Handle => ret VMap
  | VObject Service => ret VUndefined
  | VMap => ret VUndefined
  end.

(** [v.set(k, x)] *)
Definition call_set (v : value) (k : jsval) (x : MemoryItem) : M Store unit :=
  match v with
  | VMap => fun m => (Normal tt, map_set k x m)
  | _ => throw TypeError
  end.

(** [v.get(k)] *)
Definition call_get (v : value) (k : jsval) : M Store (option MemoryItem) :=
  match v with
  | VMap => fun m => (Normal (map_get k m), m)
  | _ => throw TypeError
  end.

(** The object [prepare()] returns.  Its two arrow functions keep the
    [this] of the [prepare] call they were created in. *)
Definition statement (this : object) : Statement Store :=
  {| run := Some (fun args =>
              store <- get_memoryStore (get_db this);;
              call_set store (arg 0 args)
                {| m_term := arg 0 args; m_score := arg 1 args;
                   m_lastSearched := arg 2 args;
                   m_createdAt := arg 3 args |};;;
              ret None);
     get := Some (fun args =>
              store <- get_memoryStore (get_db this);;
              item <- call_get store (arg 0 args);;
              ret (option_map ItemRow item));
     all := None |}.

(** The service calls [this.db.prepare(...)], so [prepare] runs with the
    handle as its [this]. *)
Definition database : Database Store :=
  {| prepare := fun _ => ret (statement Handle) |}.

End Memory.

(** ** The service

    The methods are [async], but the only [await] of the class (on
    [isForbidden], in [recordSearch]) comes before the first use of the
    handle, and better-sqlite3 is synchronous: what one call does to the
    handle is not interleaved with what another does, and a run of the
    service is a sequence of calls. *)

(** The messages of the replies, as code units. *)

(** ['密码错误'] *)
Definition msg_wrong_password : jsstring := [23494; 30721; 38169; 35823]%N.

(** ['热搜记录已清除'] *)
Definition msg_cleared : jsstring :=
  [28909; 25628; 35760; 24405; 24050; 28165; 38500]%N.

(** ['清除失败'] *)
Definition msg_clear_failed : jsstring := [28165; 38500; 22833; 36133]%N.

(** The template literal that wraps the term: 热搜词 "term" 已删除 *)
Definition msg_deleted (term : jsstring) : jsstring :=
  ([28909; 25628; 35789; 32; 34] ++ term ++ [34; 32; 24050; 21024; 38500])%N.

(** ['热搜词不存在'] *)
Definition msg_not_found : jsstring :=
  [28909; 25628; 35789; 19981; 23384; 22312]%N.

(** ['删除失败'] *)
Definition msg_delete_failed : jsstring := [21024; 38500; 22833; 36133]%N.

Section Service.

Context {S : Type}.

(** [this.db] *)
Variable db : Database S.

(** [process.env.HOT_SEARCH_PASSWORD], when it is set. *)
Variable HOT_SEARCH_PASSWORD : option jsstring.

(** [process.env.HOT_SEARCH_PASSWORD || 'admin123'] *)
Definition correctPassword : jsstring :=
  match HOT_SEARCH_PASSWORD with
  | Some (c :: s) => c :: s
  | Some [] => of_ascii "admin123"
  | None => of_ascii "admin123"
  end.

Definition cleanupOldEntries : M S unit :=
  try_catch
    (stmt <- prepare db DELETE_NOT_IN_TOP;;
     result <- invoke (run stmt) [Num MAX_ENTRIES];;
     n <- read_changes result;;
     ret tt)
    (fun _ => ret tt).

(** [!term || term.trim().length === 0] *)
Definition blank (term : jsstring) : bool :=
  match term with
  | [] => true
  | _ :: _ => Nat.eqb (length (trim term)) 0
  end.

(** [now] is what [Date.now()] gives during the call. *)
Definition recordSearch (term : jsstring) (now : Z) : M S unit :=
  if blank term then ret tt
  else if isForbidden term then ret tt
  else
    try_catch
      (stmt <- prepare db INSERT_ON_CONFLICT;;
       invoke (run stmt) [Str term; Num now; Num now; Num now];;;
       cleanupOldEntries;;;
       ret tt)
      (fun _ => ret tt).

Definition getHotSearches (limit : Z) : M S (list HotSearchItem) :=
  try_catch
    (stmt <- prepare db SELECT_RANKED;;
     rows <- invoke (all stmt) [Num (Z.min limit MAX_ENTRIES)];;
     ret (map (fun row =>
                 {| term := term row; score := score row;
                    lastSearched := lastSearched row;
                    createdAt := createdAt row |}) rows))
    (fun _ => ret []).

Definition clearHotSearches (password : jsstring) : M S Reply :=
  if negb (str_eqb password correctPassword) then
    ret {| success := false; message := msg_wrong_password |}
  else
    try_catch
      (stmt <- prepare db DELETE_ALL;;
       invoke (run stmt) [];;;
       ret {| success := true; message := msg_cleared |})
      (fun _ => ret {| success := false; message := msg_clear_failed |}).

Definition deleteHotSearch (term password : jsstring) : M S Reply :=
  if negb (str_eqb password correctPassword) then
    ret {| success := false; message := msg_wrong_password |}
  else
    try_catch
      (stmt <- prepare db DELETE_TERM;;
       result <- invoke (run stmt) [Str term];;
       n <- read_changes result;;
       if 0 <? n then
         ret {| success := true; message := msg_deleted term |}
       else
         ret {| success := false; message := msg_not_found |})
      (fun _ => ret {| success := false; message := msg_delete_failed |}).

(** The [try] block of [getStats]. *)
Definition getStats_try : M S HotSearchStats :=
  countStmt <- prepare db SELECT_COUNT;;
  countResult <- invoke (get countStmt) [];;
  topStmt <- prepare db SELECT_TOP10;;
  rows <- invoke (all topStmt) [];;
  ret {| total := total_or_zero countResult;
         topTerms := map (fun row =>
                            {| term := term row; score := score row;
                               lastSearched := lastSearched row;
                               createdAt := createdAt row |}) rows |}.

Definition getStats : M S HotSearchStats :=
  try_catch getStats_try (fun _ => ret {| total := 0; topTerms := [] |}).

(** *** Sequences of calls *)

Inductive op :=
| RecordSearch (term : jsstring) (now : Z)
| GetHotSearches (limit : Z)
| DeleteHotSearch (term password : jsstring)
| ClearHotSearches (password : jsstring)
| GetStats.

(** What the caller gets back from one call. *)
Inductive answer :=
| Recorded
| Listed (items : list HotSearchItem)
| Replied (reply : Reply)
| Counted (stats : HotSearchStats).

Definition call (o : op) : M S answer :=
  match o with
  | RecordSearch term now => recordSearch term now;;; ret Recorded
  | GetHotSearches limit => items <- getHotSearches limit;; ret (Listed items)
  | DeleteHotSearch term password =>
      reply <- deleteHotSearch term password;; ret (Replied reply)
  | ClearHotSearches password =>
      reply <- clearHotSearches password;; ret (Replied reply)
  | GetStats => stats <- getStats;; ret (Counted stats)
  end.

Fixpoint calls (ops : list op) : M S (list answer) :=
  match ops with
  | [] => ret []
  | o :: ops' => a <- call o;; rest <- calls ops';; ret (a :: rest)
  end.

(** The state the handle is in after the calls. *)
Definition after (ops : list op) (s : S) : S := snd (calls ops s).

End Service.

(** ** The service on the durable handle *)

(** What the schema and the service maintain of the table: [id] is a key
    issued by the counter, [term] is unique, at most [MAX_ENTRIES] rows,
    and only terms that [recordSearch] lets through, counted from 1. *)
Record consistent (tb : Sql.Table) : Prop := {
  ids_unique : NoDup (map Sql.id (Sql.rows tb));
  ids_issued : Forall (fun r => Sql.id r <= Sql.seq tb) (Sql.rows tb);
  terms_unique : NoDup (map Sql.term (Sql.rows tb));
  terms_accepted :
    Forall (fun r => blank (Sql.term r) = false
                     /\ isForbidden (Sql.term r) = false) (Sql.rows tb);
  scores_positive : Forall (fun r => 1 <= Sql.score r) (Sql.rows tb);
  within_capacity : Sql.count tb <= MAX_ENTRIES
}.

(** The ranked read: [SELECT ... ORDER BY ... LIMIT n]. *)
Definition ranked (n : Z) (tb : Sql.Table) : list HotSearchItem :=
  map select_columns (Sql.limit n (Sql.order_by (Sql.rows tb))).

(** The table one call leaves behind. *)
Definition transition (password : option jsstring) (o : op) (tb : Sql.Table)
  : Sql.Table :=
  match o with
  | RecordSearch term now =>
      if blank term || isForbidden term then tb
      else Sql.delete_not_in_top MAX_ENTRIES
             (Sql.insert_on_conflict term now now now tb)
  | GetHotSearches _ => tb
  | DeleteHotSearch term pw =>
      if str_eqb pw (correctPassword password) then Sql.delete_term term tb
      else tb
  | ClearHotSearches pw =>
      if str_eqb pw (correctPassword password) then Sql.delete_all tb else tb
  | GetStats => tb
  end.





(** [limit] brought into the interval from 0 to [MAX_ENTRIES]. *)
Definition clamp (limit : Z) : Z := Z.max 0 (Z.min limit MAX_ENTRIES).

(** The reading of [clearHotSearches] in which the caller gets the number
    of removed records: it can be read off the reply. *)
Definition reply_carries_count (count_of : Reply -> Z) : Prop :=
  forall (ops : list op) (reply : Reply) (tb' : Sql.Table),
    let tb := after Sqlite.database None ops Sql.empty in
    clearHotSearches Sqlite.database None (of_ascii "admin123") tb
    = (Normal reply, tb') ->
    count_of reply = Sql.count tb - Sql.count tb'.

(** ** A handle that counts

    Not in the source: a handle whose state is the number of calls made on
    it and on its statements, which answers every read with no row.  It
    shows which calls of the service reach the handle at all. *)

Module Probe.

Definition tick {A} (a : A) : M nat A := fun n => (Normal a, S n).

Definition statement : Statement nat :=
  {| run := Some (fun _ => tick None);
     get := Some (fun _ => tick None);
     all := Some (fun _ => tick []) |}.

Definition database : Database nat :=
  {| prepare := fun _ => tick statement |}.

End Probe.

(** ** Closing the handle

    [close()] calls [this.db.close] when the handle has one: the
    better-sqlite3 connection does, the in-memory object does not. *)

Definition close {S : Type} (db_close : option (M S unit)) : M S unit :=
  match db_close with
  | Some close_db => close_db
  | None => ret tt
  end.

(** The better-sqlite3 connection with its open flag: once closed, it
    refuses [prepare] and every call on a statement with a TypeError, and
    the table stays in the file as it was. *)

Module Connection.

Record State := {
  is_open : bool;
  table : Sql.Table
}.

Definition opened (tb : Sql.Table) : State :=
  {| is_open := true; table := tb |}.

Definition on_table {A} (m : M Sql.Table A) : M State A :=
  fun s =>
    if is_open s then
      let (r, tb) := m (table s) in (r, {| is_open := true; table := tb |})
    else (Throw TypeError, s).

Definition method {A} (f : option (list jsval -> M Sql.Table A))
  : option (list jsval -> M State A) :=
  option_map (fun g args => on_table (g args)) f.

Definition statement (q : sql) : Statement State :=
  {| run := method (run (Sqlite.statement q));
     get := method (get (Sqlite.statement q));
     all := method (all (Sqlite.statement q)) |}.

Definition database : Database State :=
  {| prepare := fun q => on_table (ret (statement q)) |}.

(** [this.db.close()] *)
Definition close_db : M State unit :=
  fun s => (Normal tt, {| is_open := false; table := table s |}).

End Connection.

(** ** Vocabulary for sequences of recordings *)

(** A string without a lone surrogate.  better-sqlite3 hands text to the
    table as UTF-8, which has no lone surrogates (each becomes U+FFFD):
    the table compares and gives back a term as the service passed it
    exactly when the term is well formed. *)
Definition is_high (c : N) : bool := ((55296 <=? c) && (c <=? 56319))%N.
Definition is_low (c : N) : bool := ((56320 <=? c) && (c <=? 57343))%N.

Fixpoint well_formed (s : jsstring) : bool :=
  match s with
  | [] => true
  | c :: s' =>
      if is_high c then
        match s' with
        | d :: s'' => is_low d && well_formed s''
        | [] => false
        end
      else negb (is_low c) && well_formed s'
  end.

(** The calls of a sequence pass only well-formed terms. *)
Definition op_well_formed (o : op) : bool :=
  match o with
  | RecordSearch t _ => well_formed t
  | DeleteHotSearch t _ => well_formed t
  | _ => true
  end.

Definition ops_well_formed (ops : list op) : bool :=
  forallb op_well_formed ops.

(** A word with no whitespace in it, as the words of the deny list are. *)
Definition solid (word : jsstring) : bool :=
  forallb (fun p => negb (is_white (canonicalize p))) word.

(** A term that [recordSearch] lets through to the handle. *)
Definition accepted (t : jsstring) : bool :=
  negb (blank t || isForbidden t).

(** The terms of a list, each once, in the order of first occurrence. *)
Definition add_term (seen : list jsstring) (t : jsstring) : list jsstring :=
  if existsb (str_eqb t) seen then seen else seen ++ [t].

Definition distinct (ts : list jsstring) : list jsstring :=
  fold_left add_term ts [].

(** Items in ranking order: higher score first, then later time first. *)
Definition item_before (x y : HotSearchItem) : Prop :=
  score y < score x
  \/ (score x = score y /\ lastSearched y <= lastSearched x).

(** ** The tabs of the trending widget ([HotSearchTabs.vue]) *)

Module HotSearchTabs.

Record Tab := {
  key : jsstring;
  label : jsstring;
  icon : jsstring;
  keywords : list jsstring
}.

(** The [tabs] table; labels, icons and keywords as code units. *)
Definition tabs : list Tab :=
  [ {| key := of_ascii "all"; label := [20840; 37096];
       icon := [55357; 56613]; keywords := [] |};
    {| key := of_ascii "movie"; label := [24433; 35270];
       icon := [55356; 57260];
       keywords := [ [30005; 24433]; [21095; 38598]; [30005; 35270; 21095];
                     [21160; 28459]; [21160; 30011]; [32426; 24405; 29255];
                     [32508; 33402] ] |};
    {| key := of_ascii "software"; label := [36719; 20214];
       icon := [55357; 56507];
       keywords := [ [36719; 20214]; [24037; 20855]; [24212; 29992];
                     of_ascii "APP"; [31243; 24207];
                     [23433; 35013; 21253] ] |};
    {| key := of_ascii "study"; label := [23398; 20064];
       icon := [55357; 56538];
       keywords := [ [23398; 20064]; [36164; 26009]; [25945; 31243];
                     [35838; 31243]; [25991; 26723]; [30005; 23376; 20070];
                     [25945; 26448] ] |};
    {| key := of_ascii "music"; label := [38899; 20048];
       icon := [55356; 57269];
       keywords := [ [38899; 20048]; [27468; 26354]; of_ascii "MP3";
                     [26080; 25439]; of_ascii "FLAC" ] |};
    {| key := of_ascii "game"; label := [28216; 25103];
       icon := [55356; 57262];
       keywords := [ [28216; 25103]; of_ascii "Steam"; [21333; 26426];
                     [25163; 28216]; [32593; 28216] ] |} ]%N.

Fixpoint startsWith (word s : jsstring) : bool :=
  match word, s with
  | [], _ => true
  | p :: word', c :: s' => N.eqb p c && startsWith word' s'
  | _ :: _, [] => false
  end.

(** [s.includes(word)]: code unit by code unit, case matters. *)
Fixpoint includes (word s : jsstring) : bool :=
  startsWith word s
  || match s with
     | [] => false
     | _ :: s' => includes word s'
     end.

(** [tab.keywords.some(keyword => item.term.includes(keyword))] *)
Definition matches (tab : Tab) (item : HotSearchItem) : bool :=
  existsb (fun keyword => includes keyword (term item)) (keywords tab).

(** The computed [filteredSearches], from the two refs it reads. *)
Definition filteredSearches (currentTab : jsstring)
    (allSearches : list HotSearchItem) : list HotSearchItem :=
  if str_eqb currentTab (of_ascii "all") then allSearches
  else
    match find (fun t => str_eqb (key t) currentTab) tabs with
    | None => allSearches
    | Some tab =>
        if Nat.eqb (length (keywords tab)) 0 then allSearches
        else filter (matches tab) allSearches
    end.

End HotSearchTabs.

(** * Properties *)

(** ** Strings *)

Lemma str_eqb_eq (a b : jsstring) : str_eqb a b = true <-> a = b.
Proof.
  revert b; induction a as [|x a IH]; intros [|y b]; simpl; split;
    try congruence; try reflexivity.
  - intros H. apply andb_true_iff in H as [Hx Hab].
    apply N.eqb_eq in Hx. apply IH in Hab. congruence.
  - intros H. injection H as -> ->.
    apply andb_true_iff. split; [apply N.eqb_refl | now apply IH].
Qed.

Lemma str_eqb_refl (a : jsstring) : str_eqb a a = true.
Proof. now apply str_eqb_eq. Qed.

Lemma str_eqb_neq (a b : jsstring) : str_eqb a b = false <-> a <> b.
Proof.
  split.
  - intros H E. apply str_eqb_eq in E. congruence.
  - intros H. destruct (str_eqb a b) eqn:E; [|reflexivity].
    apply str_eqb_eq in E. contradiction.
Qed.

Lemma str_eqb_sym (a b : jsstring) : str_eqb a b = str_eqb b a.
Proof.
  destruct (str_eqb a b) eqn:E.
  - apply str_eqb_eq in E. subst. symmetry. apply str_eqb_refl.
  - symmetry. apply str_eqb_neq. apply str_eqb_neq in E. congruence.
Qed.

(** ** The ranking order *)

Module SqlFacts.
Import Sql.

Lemma before_refl (a : Row) : before a a = true.
Proof.
  unfold before. rewrite Z.eqb_refl, Z.leb_refl. simpl.
  now rewrite orb_true_r.
Qed.

Lemma before_total (a b : Row) : before a b = true \/ before b a = true.
Proof.
  unfold before.
  destruct (Z.ltb_spec (score b) (score a)); [now left|].
  destruct (Z.ltb_spec (score a) (score b)); [now right|].
  assert (E : score a = score b) by lia.
  rewrite E, Z.eqb_refl. simpl.
  destruct (Z.leb_spec (last_searched b) (last_searched a)); [now left|].
  right. apply Z.leb_le. lia.
Qed.

Lemma before_spec (a b : Row) :
  before a b = true <->
  score b < score a
  \/ (score a = score b /\ last_searched b <= last_searched a).
Proof.
  unfold before. rewrite orb_true_iff, andb_true_iff.
  rewrite Z.ltb_lt, Z.eqb_eq, Z.leb_le. reflexivity.
Qed.

Lemma before_trans (a b c : Row) :
  before a b = true -> before b c = true -> before a c = true.
Proof. rewrite !before_spec. lia. Qed.

Lemma before_false (a b : Row) : before a b = false -> before b a = true.
Proof.
  intros H. destruct (before_total a b) as [E|E]; congruence.
Qed.


Lemma place_perm (x : Row) (l : list Row) : Permutation (x :: l) (place x l).
Proof.
  induction l as [|y l IH]; simpl; [reflexivity|].
  destruct (before x y); [reflexivity|].
  rewrite perm_swap. now constructor.
Qed.

Lemma order_by_perm (l : list Row) : Permutation l (order_by l).
Proof.
  induction l as [|x l IH]; simpl; [reflexivity|].
  rewrite <- place_perm. now constructor.
Qed.

Lemma order_by_length (l : list Row) : length (order_by l) = length l.
Proof. symmetry. apply Permutation_length, order_by_perm. Qed.

Lemma order_by_In (l : list Row) (r : Row) : In r (order_by l) <-> In r l.
Proof.
  split; apply Permutation_in;
    [symmetry|]; apply order_by_perm.
Qed.

Lemma place_sorted (x : Row) (l : list Row) :
  StronglySorted (fun a b => before a b = true) l ->
  StronglySorted (fun a b => before a b = true) (place x l).
Proof.
  induction 1 as [|y l Hs IH Hy]; simpl.
  - repeat constructor.
  - destruct (before x y) eqn:E.
    + constructor; [now constructor|].
      constructor; [exact E|].
      eapply Forall_impl; [|exact Hy].
      intros z Hz. eapply before_trans; eassumption.
    + constructor; [exact IH|].
      apply Forall_forall. intros z Hz.
      apply (Permutation_in _ (Permutation_sym (place_perm x l))) in Hz.
      destruct Hz as [<-|Hz]; [now apply before_false|].
      rewrite Forall_forall in Hy. now apply Hy.
Qed.

Lemma order_by_sorted (l : list Row) :
  StronglySorted (fun a b => before a b = true) (order_by l).
Proof.
  induction l as [|x l IH]; simpl; [constructor | now apply place_sorted].
Qed.



End SqlFacts.

(** ** Eviction keeps the head of the ranking *)

Module Eviction.
Import Sql SqlFacts.

(** Selecting rows commutes with reordering the table. *)
Lemma select_perm (keep : Row -> bool) (tb1 tb2 : list Row) :
  Permutation tb1 tb2 -> Permutation (filter keep tb1) (filter keep tb2).
Proof.
  intros Hp.
  induction Hp as [|r l1 l2 _ IH|r r' l|l1 l2 l3 _ IH1 _ IH2]; simpl.
  - constructor.
  - destruct (keep r); [now constructor | exact IH].
  - destruct (keep r), (keep r'); try reflexivity. apply perm_swap.
  - now rewrite IH1.
Qed.

Lemma limit_beyond (n : Z) (l : list Row) : limit n l ++ beyond n l = l.
Proof.
  unfold limit, beyond. destruct (n <? 0).
  - apply app_nil_r.
  - apply firstn_skipn.
Qed.

Lemma in_ids_spec (ids : list Z) (r : Row) :
  in_ids ids r = true <-> In (id r) ids.
Proof.
  unfold in_ids. rewrite existsb_exists. split.
  - intros (x & Hx & E). apply Z.eqb_eq in E. now subst.
  - intros H. exists (id r). split; [exact H | apply Z.eqb_refl].
Qed.

Lemma select_every (keep : Row -> bool) (tb : list Row) :
  Forall (fun r => keep r = true) tb -> filter keep tb = tb.
Proof.
  induction 1 as [|r tb Hr _ IH]; simpl; [reflexivity|].
  now rewrite Hr, IH.
Qed.

Lemma select_nothing (keep : Row -> bool) (tb : list Row) :
  Forall (fun r => keep r = false) tb -> filter keep tb = [].
Proof.
  induction 1 as [|r tb Hr _ IH]; simpl; [reflexivity|].
  now rewrite Hr.
Qed.

(** Selecting the rows whose id is among those of [a] gives back [a],
    when the table is [a] and [b] put together and ids do not repeat. *)
Lemma filter_in_ids (l a b : list Row) :
  NoDup (map id l) -> Permutation l (a ++ b) ->
  Permutation (filter (in_ids (map id a)) l) a.
Proof.
  intros Hnd Hp.
  rewrite (select_perm _ Hp), filter_app.
  assert (Hnd' : NoDup (map id (a ++ b))).
  { eapply Permutation_NoDup; [|exact Hnd]. now apply Permutation_map. }
  rewrite select_every, select_nothing.
  - now rewrite app_nil_r.
  - apply Forall_forall. intros x Hx.
    destruct (in_ids (map id a) x) eqn:E; [|reflexivity].
    exfalso. apply in_ids_spec in E.
    rewrite map_app in Hnd'. clear - Hnd' Hx E.
    induction a as [|y a IH]; simpl in *; [contradiction|].
    apply NoDup_cons_iff in Hnd' as [Hy Hnd'].
    destruct E as [E|E].
    + apply Hy. rewrite E. apply in_or_app. right. now apply in_map.
    + now apply IH.
  - apply Forall_forall. intros x Hx. apply in_ids_spec. now apply in_map.
Qed.

Lemma delete_not_in_top_perm (n : Z) (tb : Table) :
  NoDup (map id (rows tb)) ->
  Permutation (rows (delete_not_in_top n tb)) (limit n (order_by (rows tb))).
Proof.
  intros Hnd. unfold delete_not_in_top. cbn [rows].
  apply filter_in_ids with (b := beyond n (order_by (rows tb))).
  - exact Hnd.
  - rewrite limit_beyond. apply order_by_perm.
Qed.

Lemma sorted_app_before (a b : list Row) :
  StronglySorted (fun x y => before x y = true) (a ++ b) ->
  forall x y, In x a -> In y b -> before x y = true.
Proof.
  induction a as [|z a IH]; simpl; intros Hs x y Hx Hy; [contradiction|].
  inversion Hs as [|? ? Hs' Hz]; subst.
  destruct Hx as [<-|Hx].
  - rewrite Forall_forall in Hz. apply Hz, in_or_app. now right.
  - now apply IH.
Qed.

(** Every row that stays ranks at least as high as every row that
    goes. *)
Lemma delete_not_in_top_dominates (n : Z) (tb : Table) (kept evicted : Row) :
  NoDup (map id (rows tb)) ->
  In kept (rows (delete_not_in_top n tb)) ->
  In evicted (rows tb) -> ~ In evicted (rows (delete_not_in_top n tb)) ->
  before kept evicted = true.
Proof.
  intros Hnd Hk He Hne.
  pose proof (delete_not_in_top_perm n tb Hnd) as Hp.
  apply (Permutation_in _ Hp) in Hk.
  assert (Hb : In evicted (beyond n (order_by (rows tb)))).
  { apply order_by_In in He. rewrite <- (limit_beyond n) in He.
    apply in_app_or in He as [He|He]; [|exact He].
    exfalso. apply Hne.
    eapply Permutation_in; [symmetry; exact Hp | exact He]. }
  eapply sorted_app_before; [|exact Hk|exact Hb].
  rewrite limit_beyond. apply order_by_sorted.
Qed.

Lemma limit_length (n : Z) (l : list Row) :
  0 <= n -> Z.of_nat (length (limit n l)) = Z.min n (Z.of_nat (length l)).
Proof.
  intros Hn. unfold limit.
  destruct (Z.ltb_spec n 0); [lia|].
  rewrite length_firstn. lia.
Qed.

Lemma delete_not_in_top_count (n : Z) (tb : Table) :
  NoDup (map id (rows tb)) -> 0 <= n ->
  count (delete_not_in_top n tb) = Z.min n (count tb).
Proof.
  intros Hnd Hn. unfold count.
  rewrite (Permutation_length (delete_not_in_top_perm n tb Hnd)).
  rewrite limit_length by exact Hn. now rewrite order_by_length.
Qed.

End Eviction.

(** ** The calls never throw *)

Section Contained.

Context {S : Type} (db : Database S) (password : option jsstring).

Lemma try_catch_returns {A} (m : M S A) (h : exn -> A) (s : S) :
  exists a s', try_catch m (fun e => ret (h e)) s = (Normal a, s').
Proof.
  unfold try_catch, ret. destruct (m s) as [[a|e] s']; eauto.
Qed.

Lemma recordSearch_returns (term : jsstring) (now : Z) (s : S) :
  exists s', recordSearch db term now s = (Normal tt, s').
Proof.
  unfold recordSearch.
  destruct (blank term); [eexists; reflexivity|].
  destruct (isForbidden term); [eexists; reflexivity|].
  match goal with
  | |- context [try_catch ?m ?h] =>
      destruct (try_catch_returns m (fun _ => tt) s) as ([] & s' & E)
  end.
  exists s'. exact E.
Qed.

Lemma getHotSearches_returns (limit : Z) (s : S) :
  exists items s', getHotSearches db limit s = (Normal items, s').
Proof.
  unfold getHotSearches.
  match goal with
  | |- context [try_catch ?m ?h] =>
      apply (try_catch_returns m (fun _ => []))
  end.
Qed.

Lemma clearHotSearches_returns (pw : jsstring) (s : S) :
  exists reply s', clearHotSearches db password pw s = (Normal reply, s').
Proof.
  unfold clearHotSearches.
  destruct (negb _); [do 2 eexists; reflexivity|].
  match goal with
  | |- context [try_catch ?m ?h] =>
      apply (try_catch_returns m
               (fun _ => {| success := false; message := msg_clear_failed |}))
  end.
Qed.

Lemma deleteHotSearch_returns (term pw : jsstring) (s : S) :
  exists reply s', deleteHotSearch db password term pw s = (Normal reply, s').
Proof.
  unfold deleteHotSearch.
  destruct (negb _); [do 2 eexists; reflexivity|].
  match goal with
  | |- context [try_catch ?m ?h] =>
      apply (try_catch_returns m
               (fun _ => {| success := false; message := msg_delete_failed |}))
  end.
Qed.

Lemma getStats_returns (s : S) :
  exists stats s', getStats db s = (Normal stats, s').
Proof.
  unfold getStats.
  apply (try_catch_returns _ (fun _ => {| total := 0; topTerms := [] |})).
Qed.

Lemma call_returns (o : op) (s : S) :
  exists a s', call db password o s = (Normal a, s').
Proof.
  destruct o as [term now|limit|term pw|pw|]; unfold call, bind.
  - destruct (recordSearch_returns term now s) as (s' & ->).
    do 2 eexists; reflexivity.
  - destruct (getHotSearches_returns limit s) as (a & s' & ->).
    do 2 eexists; reflexivity.
  - destruct (deleteHotSearch_returns term pw s) as (a & s' & ->).
    do 2 eexists; reflexivity.
  - destruct (clearHotSearches_returns pw s) as (a & s' & ->).
    do 2 eexists; reflexivity.
  - destruct (getStats_returns s) as (a & s' & ->).
    do 2 eexists; reflexivity.
Qed.

Lemma after_nil (s : S) : after db password [] s = s.
Proof. reflexivity. Qed.

Lemma calls_returns (ops : list op) (s : S) :
  exists answers, calls db password ops s
                  = (Normal answers, after db password ops s).
Proof.
  revert s. induction ops as [|o ops IH]; intros s.
  - eexists; reflexivity.
  - destruct (call_returns o s) as (a & s' & E).
    destruct (IH s') as (rest & E').
    exists (a :: rest). unfold after. cbn [calls]. unfold bind.
    rewrite E, E'. reflexivity.
Qed.

Lemma after_cons (o : op) (ops : list op) (s : S) :
  after db password (o :: ops) s
  = after db password ops (snd (call db password o s)).
Proof.
  destruct (call_returns o s) as (a & s' & E).
  destruct (calls_returns ops s') as (rest & E').
  unfold after at 1. cbn [calls]. unfold bind.
  rewrite E, E'. reflexivity.
Qed.

Lemma after_one (o : op) (s : S) :
  after db password [o] s = snd (call db password o s).
Proof. now rewrite after_cons, after_nil. Qed.

Lemma after_app (ops ops' : list op) (s : S) :
  after db password (ops ++ ops') s
  = after db password ops' (after db password ops s).
Proof.
  revert s. induction ops as [|o ops IH]; intros s; [reflexivity|].
  cbn [app]. rewrite !after_cons. apply IH.
Qed.

End Contained.

(** ** The calls on the durable handle *)

Module Durable.

Lemma items_copy (rows : list HotSearchItem) :
  map (fun row =>
         {| term := term row; score := score row;
            lastSearched := lastSearched row;
            createdAt := createdAt row |}) rows = rows.
Proof.
  induction rows as [|[t sc ls ca] rows IH]; simpl; [reflexivity|].
  now rewrite IH.
Qed.

Lemma recordSearch_eval (term : jsstring) (now : Z) (tb : Sql.Table) :
  recordSearch Sqlite.database term now tb
  = (Normal tt,
     if blank term || isForbidden term then tb
     else Sql.delete_not_in_top MAX_ENTRIES
            (Sql.insert_on_conflict term now now now tb)).
Proof.
  unfold recordSearch.
  destruct (blank term); [reflexivity|].
  destruct (isForbidden term); reflexivity.
Qed.

Lemma limit_ok_min (limit : Z) :
  Sql.limit_ok (Z.min limit MAX_ENTRIES) = (-9223372036854775808 <? limit).
Proof.
  unfold Sql.limit_ok, MAX_ENTRIES.
  destruct (Z.ltb_spec (-9223372036854775808) limit);
    [apply andb_true_iff; split; apply Z.ltb_lt; lia|].
  apply andb_false_iff. left. apply Z.ltb_ge. lia.
Qed.

Lemma getHotSearches_eval (limit : Z) (tb : Sql.Table) :
  getHotSearches Sqlite.database limit tb
  = (Normal (if -9223372036854775808 <? limit
             then ranked (Z.min limit MAX_ENTRIES) tb else []), tb).
Proof.
  rewrite <- limit_ok_min.
  unfold getHotSearches, try_catch, bind, ranked. cbn.
  destruct (Sql.limit_ok (Z.min limit MAX_ENTRIES)); cbn; [|reflexivity].
  now rewrite items_copy.
Qed.

Lemma getHotSearches_listing (limit : Z) (tb : Sql.Table) :
  -9223372036854775808 < limit ->
  getHotSearches Sqlite.database limit tb
  = (Normal (ranked (Z.min limit MAX_ENTRIES) tb), tb).
Proof.
  intros H. rewrite getHotSearches_eval.
  apply Z.ltb_lt in H. now rewrite H.
Qed.

Lemma getStats_eval (tb : Sql.Table) :
  getStats Sqlite.database tb
  = (Normal {| total := Sql.count tb; topTerms := ranked 10 tb |}, tb).
Proof.
  unfold getStats, getStats_try, try_catch, bind, ranked. cbn.
  rewrite items_copy. destruct (Z.eqb_spec (Sql.count tb) 0) as [->|];
    reflexivity.
Qed.

Lemma clearHotSearches_eval (password : option jsstring) (pw : jsstring)
    (tb : Sql.Table) :
  clearHotSearches Sqlite.database password pw tb
  = if str_eqb pw (correctPassword password) then
      (Normal {| success := true; message := msg_cleared |},
       Sql.delete_all tb)
    else
      (Normal {| success := false; message := msg_wrong_password |}, tb).
Proof.
  unfold clearHotSearches. destruct (str_eqb _ _); reflexivity.
Qed.

Lemma deleteHotSearch_eval (password : option jsstring) (term pw : jsstring)
    (tb : Sql.Table) :
  deleteHotSearch Sqlite.database password term pw tb
  = if str_eqb pw (correctPassword password) then
      (Normal
         (if 0 <? Sql.count tb - Sql.count (Sql.delete_term term tb) then
            {| success := true; message := msg_deleted term |}
          else {| success := false; message := msg_not_found |}),
       Sql.delete_term term tb)
    else
      (Normal {| success := false; message := msg_wrong_password |}, tb).
Proof.
  unfold deleteHotSearch. destruct (str_eqb _ _); [|reflexivity].
  unfold try_catch, bind. cbn.
  destruct (0 <? _); reflexivity.
Qed.

Lemma call_state (password : option jsstring) (o : op) (tb : Sql.Table) :
  snd (call Sqlite.database password o tb) = transition password o tb.
Proof.
  destruct o as [term now|limit|term pw|pw|]; unfold call, bind, transition.
  - now rewrite recordSearch_eval.
  - now rewrite getHotSearches_eval.
  - rewrite deleteHotSearch_eval. now destruct (str_eqb _ _).
  - rewrite clearHotSearches_eval. now destruct (str_eqb _ _).
  - now rewrite getStats_eval.
Qed.

Lemma after_step (password : option jsstring) (o : op) (ops : list op)
    (tb : Sql.Table) :
  after Sqlite.database password (o :: ops) tb
  = after Sqlite.database password ops (transition password o tb).
Proof. now rewrite after_cons, call_state. Qed.

Lemma after_snoc (password : option jsstring) (o : op) (ops : list op)
    (tb : Sql.Table) :
  after Sqlite.database password (ops ++ [o]) tb
  = transition password o (after Sqlite.database password ops tb).
Proof. now rewrite after_app, after_one, call_state. Qed.

End Durable.

(** ** The table stays consistent *)

Module Invariant.

(** A column that is a key of the table is a key of any selection of its
    rows. *)
Lemma key_of_selection {K : Type} (column : Sql.Row -> K)
    (keep : Sql.Row -> bool) (tb : list Sql.Row) :
  NoDup (map column tb) -> NoDup (map column (filter keep tb)).
Proof.
  intros Hkey. induction tb as [|r tb IH]; [constructor|].
  cbn [map] in Hkey. apply NoDup_cons_iff in Hkey as [Hr Hkey].
  cbn [filter]. destruct (keep r); [|now apply IH].
  cbn [map]. constructor; [|now apply IH].
  rewrite in_map_iff. intros (r' & E & Hr'). apply Hr.
  rewrite <- E. apply in_map. now apply filter_In in Hr'.
Qed.

Lemma holds_of_selection (P : Sql.Row -> Prop) (keep : Sql.Row -> bool)
    (tb : list Sql.Row) :
  Forall P tb -> Forall P (filter keep tb).
Proof.
  intros H. apply Forall_forall. intros r Hr.
  apply filter_In in Hr as [Hr _].
  revert r Hr. now apply Forall_forall.
Qed.

Lemma selection_is_smaller (keep : Sql.Row -> bool) (tb : list Sql.Row) :
  (length (filter keep tb) <= length tb)%nat.
Proof.
  induction tb as [|r tb IH]; simpl; [lia|].
  destruct (keep r); simpl; lia.
Qed.

Lemma has_term_spec (t : jsstring) (tb : Sql.Table) :
  Sql.has_term t tb = true <-> In t (map Sql.term (Sql.rows tb)).
Proof.
  unfold Sql.has_term. rewrite existsb_exists, in_map_iff.
  split; intros (r & H1 & H2).
  - apply str_eqb_eq in H2. now exists r.
  - exists r. split; [exact H2 | now apply str_eqb_eq].
Qed.

Section Insert.

Variables (t : jsstring) (ls ca ls' : Z) (tb : Sql.Table).

Lemma insert_ids :
  NoDup (map Sql.id (Sql.rows tb)) ->
  Forall (fun r => Sql.id r <= Sql.seq tb) (Sql.rows tb) ->
  NoDup (map Sql.id (Sql.rows (Sql.insert_on_conflict t ls ca ls' tb)))
  /\ Forall
       (fun r => Sql.id r <= Sql.seq (Sql.insert_on_conflict t ls ca ls' tb))
       (Sql.rows (Sql.insert_on_conflict t ls ca ls' tb)).
Proof.
  intros Hnd Hle. unfold Sql.insert_on_conflict, Sql.inserted, Sql.updated.
  destruct (Sql.has_term t tb); cbn [Sql.rows Sql.seq].
  - split.
    + rewrite map_map.
      erewrite map_ext; [exact Hnd|].
      intros r. now destruct (str_eqb _ _).
    + apply Forall_map. eapply Forall_impl; [|exact Hle].
      intros r Hr. cbn beta in Hr. destruct (str_eqb _ _); cbn; lia.
  - split.
    + rewrite map_app. cbn [map Sql.id].
      apply NoDup_app; [exact Hnd | repeat constructor; intros [] |].
      intros i Hi [<-|[]].
      apply in_map_iff in Hi as (r & E & Hr).
      rewrite Forall_forall in Hle. specialize (Hle r Hr). lia.
    + apply Forall_app. split.
      * eapply Forall_impl; [|exact Hle]. cbn. intros r Hr. lia.
      * repeat constructor. cbn. lia.
Qed.

Lemma insert_terms :
  NoDup (map Sql.term (Sql.rows tb)) ->
  NoDup (map Sql.term (Sql.rows (Sql.insert_on_conflict t ls ca ls' tb))).
Proof.
  intros Hnd. unfold Sql.insert_on_conflict, Sql.inserted, Sql.updated.
  destruct (Sql.has_term t tb) eqn:Hh; cbn [Sql.rows].
  - rewrite map_map. erewrite map_ext; [exact Hnd|].
    intros r. now destruct (str_eqb _ _).
  - rewrite map_app. cbn [map Sql.term].
    apply NoDup_app; [exact Hnd | repeat constructor; intros [] |].
    intros t' Ht' [<-|[]].
    apply has_term_spec in Ht'. congruence.
Qed.

Lemma insert_terms_keep (P : jsstring -> Prop) :
  P t -> Forall (fun r => P (Sql.term r)) (Sql.rows tb) ->
  Forall (fun r => P (Sql.term r))
    (Sql.rows (Sql.insert_on_conflict t ls ca ls' tb)).
Proof.
  intros Ht H. unfold Sql.insert_on_conflict, Sql.inserted, Sql.updated.
  destruct (Sql.has_term t tb); cbn [Sql.rows].
  - apply Forall_map. eapply Forall_impl; [|exact H].
    intros r Hr. now destruct (str_eqb _ _).
  - apply Forall_app. split; [exact H|]. now repeat constructor.
Qed.

Lemma insert_scores :
  Forall (fun r => 1 <= Sql.score r) (Sql.rows tb) ->
  Forall (fun r => 1 <= Sql.score r)
    (Sql.rows (Sql.insert_on_conflict t ls ca ls' tb)).
Proof.
  intros H. unfold Sql.insert_on_conflict, Sql.inserted, Sql.updated.
  destruct (Sql.has_term t tb); cbn [Sql.rows].
  - apply Forall_map. eapply Forall_impl; [|exact H].
    intros r Hr. cbn beta in Hr. destruct (str_eqb _ _); cbn; lia.
  - apply Forall_app. split; [exact H|]. repeat constructor. cbn. lia.
Qed.

End Insert.

Lemma consistent_empty : consistent Sql.empty.
Proof.
  split; cbn; try constructor. unfold Sql.count, MAX_ENTRIES. cbn. lia.
Qed.

Lemma consistent_filter (p : Sql.Row -> bool) (tb : Sql.Table) :
  consistent tb ->
  consistent {| Sql.rows := filter p (Sql.rows tb); Sql.seq := Sql.seq tb |}.
Proof.
  intros [H1 H2 H3 H4 H5 H6]. split; cbn [Sql.rows Sql.seq].
  - now apply key_of_selection.
  - now apply holds_of_selection.
  - now apply key_of_selection.
  - now apply holds_of_selection.
  - now apply holds_of_selection.
  - unfold Sql.count in *. cbn [Sql.rows].
    pose proof (selection_is_smaller p (Sql.rows tb)). lia.
Qed.

Lemma consistent_record (term : jsstring) (now : Z) (tb : Sql.Table) :
  blank term = false -> isForbidden term = false ->
  consistent tb ->
  consistent (Sql.delete_not_in_top MAX_ENTRIES
                (Sql.insert_on_conflict term now now now tb)).
Proof.
  intros Hb Hf [H1 H2 H3 H4 H5 H6].
  destruct (insert_ids term now now now tb H1 H2) as [I1 I2].
  pose proof (insert_terms term now now now tb H3) as I3.
  pose proof (insert_terms_keep term now now now tb
                (fun t => blank t = false /\ isForbidden t = false)
                (conj Hb Hf) H4) as I4.
  pose proof (insert_scores term now now now tb H5) as I5.
  split.
  - now apply key_of_selection.
  - now apply holds_of_selection.
  - now apply key_of_selection.
  - now apply holds_of_selection.
  - now apply holds_of_selection.
  - rewrite Eviction.delete_not_in_top_count
      by (exact I1 || (unfold MAX_ENTRIES; lia)).
    lia.
Qed.

Lemma consistent_transition (password : option jsstring) (o : op)
    (tb : Sql.Table) :
  consistent tb -> consistent (transition password o tb).
Proof.
  intros H. destruct o as [term now|limit|term pw|pw|]; cbn [transition].
  - destruct (blank term) eqn:Hb; [exact H|].
    destruct (isForbidden term) eqn:Hf; [exact H|].
    now apply consistent_record.
  - exact H.
  - destruct (str_eqb _ _); [|exact H].
    now apply consistent_filter.
  - destruct (str_eqb _ _); [|exact H].
    destruct H as [H1 H2 H3 H4 H5 H6].
    split; cbn; try constructor. unfold Sql.count, MAX_ENTRIES. cbn. lia.
  - exact H.
Qed.

Lemma consistent_after (password : option jsstring) (ops : list op)
    (tb : Sql.Table) :
  consistent tb -> consistent (after Sqlite.database password ops tb).
Proof.
  revert tb. induction ops as [|o ops IH]; intros tb H; [exact H|].
  rewrite Durable.after_step. now apply IH, consistent_transition.
Qed.

End Invariant.

(** ** The in-memory handle *)

Module Fallback.

Lemma recordSearch_memory (t : jsstring) (now : Z) (m : Memory.Store) :
  recordSearch Memory.database t now m = (Normal tt, m).
Proof.
  unfold recordSearch.
  destruct (blank t); [reflexivity|].
  destruct (isForbidden t); reflexivity.
Qed.

Lemma getHotSearches_memory (limit : Z) (m : Memory.Store) :
  getHotSearches Memory.database limit m = (Normal [], m).
Proof. reflexivity. Qed.

Lemma getStats_memory (m : Memory.Store) :
  getStats Memory.database m = (Normal {| total := 0; topTerms := [] |}, m).
Proof. reflexivity. Qed.

Lemma clearHotSearches_memory (password : option jsstring) (pw : jsstring)
    (m : Memory.Store) :
  clearHotSearches Memory.database password pw m
  = (Normal {| success := false;
               message := if str_eqb pw (correctPassword password)
                          then msg_clear_failed else msg_wrong_password |},
     m).
Proof. unfold clearHotSearches. destruct (str_eqb _ _); reflexivity. Qed.

Lemma deleteHotSearch_memory (password : option jsstring) (t pw : jsstring)
    (m : Memory.Store) :
  deleteHotSearch Memory.database password t pw m
  = (Normal {| success := false;
               message := if str_eqb pw (correctPassword password)
                          then msg_delete_failed else msg_wrong_password |},
     m).
Proof. unfold deleteHotSearch. destruct (str_eqb _ _); reflexivity. Qed.

Lemma call_memory (password : option jsstring) (o : op) (m : Memory.Store) :
  snd (call Memory.database password o m) = m.
Proof.
  destruct o as [t now|limit|t pw|pw|]; unfold call, bind.
  - now rewrite recordSearch_memory.
  - now rewrite getHotSearches_memory.
  - now rewrite deleteHotSearch_memory.
  - now rewrite clearHotSearches_memory.
  - now rewrite getStats_memory.
Qed.

Lemma after_inert (password : option jsstring) (ops : list op)
    (m : Memory.Store) :
  after Memory.database password ops m = m.
Proof.
  induction ops as [|o ops IH]; [reflexivity|].
  now rewrite after_cons, call_memory.
Qed.

End Fallback.

(** ** Capacity *)

Lemma limit_incl (n : Z) (l : list Sql.Row) (r : Sql.Row) :
  In r (Sql.limit n l) -> In r l.
Proof.
  unfold Sql.limit. destruct (n <? 0); [trivial|].
  intros H. rewrite <- (firstn_skipn (Z.to_nat n) l).
  apply in_or_app. now left.
Qed.

Lemma ranked_In (n : Z) (tb : Sql.Table) (x : HotSearchItem) :
  In x (ranked n tb) ->
  exists r, In r (Sql.rows tb) /\ x = select_columns r.
Proof.
  unfold ranked. intros H. apply in_map_iff in H as (r & E & Hr).
  exists r. split; [|now symmetry].
  apply limit_incl in Hr. apply SqlFacts.order_by_In. exact Hr.
Qed.

(** C1. After any sequence of calls on a new store the table holds at most
    [MAX_ENTRIES] rows, which is also the total [getStats] reports (the
    in-memory map, for its part, stays empty); and when the write of an
    accepted [recordSearch] brings the count above [MAX_ENTRIES], the rows
    left when the call returns are [MAX_ENTRIES] in number, are the head of
    the ranking (score descending, then last_searched descending) of the
    rows after the write, and each of them ranks at least as high as each
    row that went. *)
Theorem capacity_invariant (password : option jsstring) (ops : list op) :
  let tb := after Sqlite.database password ops Sql.empty in
  Sql.count tb <= MAX_ENTRIES
  /\ (exists top,
        getStats Sqlite.database tb
        = (Normal {| total := Sql.count tb; topTerms := top |}, tb))
  /\ after Memory.database password ops Memory.empty = Memory.empty
  /\ forall (t : jsstring) (now : Z),
       blank t = false -> isForbidden t = false ->
       let written := Sql.insert_on_conflict t now now now tb in
       let tb' := after Sqlite.database password (ops ++ [RecordSearch t now])
                    Sql.empty in
       MAX_ENTRIES < Sql.count written ->
       Sql.count tb' = MAX_ENTRIES
       /\ Permutation (Sql.rows tb')
            (firstn (Z.to_nat MAX_ENTRIES) (Sql.order_by (Sql.rows written)))
       /\ forall kept evicted,
            In kept (Sql.rows tb') -> In evicted (Sql.rows written) ->
            ~ In evicted (Sql.rows tb') ->
            Sql.before kept evicted = true.
Proof.
  intros tb.
  assert (Hc : consistent tb)
    by apply Invariant.consistent_after, Invariant.consistent_empty.
  split; [apply Hc|].
  split; [eexists; apply Durable.getStats_eval|].
  split; [apply Fallback.after_inert|].
  intros t now Hb Hf written tb' Hover.
  assert (E : tb' = Sql.delete_not_in_top MAX_ENTRIES written).
  { subst tb'. rewrite Durable.after_snoc. cbn [transition].
    now rewrite Hb, Hf. }
  destruct Hc as [H1 H2 _ _ _ _].
  destruct (Invariant.insert_ids t now now now tb H1 H2) as [I1 _].
  fold written in I1. rewrite E.
  split; [|split].
  - rewrite Eviction.delete_not_in_top_count
      by (exact I1 || (unfold MAX_ENTRIES; lia)).
    lia.
  - apply (Eviction.delete_not_in_top_perm MAX_ENTRIES written I1).
  - intros kept evicted. now apply Eviction.delete_not_in_top_dominates.
Qed.

(** Fifty-one terms recorded one after the other: the first one goes. *)
Lemma capacity_invariant_witness :
  let ops :=
    map (fun i => RecordSearch [N.of_nat i] (Z.of_nat i)) (seq 100 50) in
  let tb' := after Sqlite.database None (ops ++ [RecordSearch [150%N] 150])
               Sql.empty in
  Sql.count tb' = MAX_ENTRIES
  /\ Permutation (Sql.rows tb')
       (firstn (Z.to_nat MAX_ENTRIES)
          (Sql.order_by
             (Sql.rows (Sql.insert_on_conflict [150%N] 150 150 150
                          (after Sqlite.database None ops Sql.empty))))).
Proof.
  intros ops tb'.
  destruct (capacity_invariant None ops) as (_ & _ & _ & H).
  destruct (H [150%N] 150) as (H1 & H2 & _);
    [reflexivity | reflexivity | vm_compute; reflexivity |].
  split; [exact H1 | exact H2].
Defined.

(** ** Ranking *)

(** Two terms recorded in the same millisecond are listed in the order in
    which they were recorded. *)
Example tie_in_recording_order :
  let a := of_ascii "a" in
  let b := of_ascii "b" in
  let ia := {| term := a; score := 1; lastSearched := 5; createdAt := 5 |} in
  let ib := {| term := b; score := 1; lastSearched := 5; createdAt := 5 |} in
  fst (calls Sqlite.database None
         [RecordSearch a 5; RecordSearch b 5; GetHotSearches 10] Sql.empty)
  = Normal [Recorded; Recorded; Listed [ia; ib]]
  /\ fst (calls Sqlite.database None
            [RecordSearch b 5; RecordSearch a 5; GetHotSearches 10] Sql.empty)
     = Normal [Recorded; Recorded; Listed [ib; ia]].
Proof. split; reflexivity. Qed.




(** C3.  The in-memory handle does not behave like the durable one.  After
    one recording the durable handle lists the term, deletes it and finds
    nothing left to delete; on the in-memory handle the listing is empty
    and both deletes fail.  Whatever the calls, nothing is ever stored in
    the map and every listing is empty: the statement's functions read
    [this.db] on the handle itself, where it is undefined, and [all] is
    missing from what [prepare] returns. *)
Theorem fallback_differs_from_durable :
  let a := of_ascii "a" in
  let pw := of_ascii "admin123" in
  let ia := {| term := a; score := 1; lastSearched := 1; createdAt := 1 |} in
  let ops := [RecordSearch a 1; GetHotSearches 10; GetStats;
              DeleteHotSearch a pw; DeleteHotSearch a pw] in
  fst (calls Sqlite.database None ops Sql.empty)
  = Normal [Recorded;
            Listed [ia];
            Counted {| total := 1; topTerms := [ia] |};
            Replied {| success := true; message := msg_deleted a |};
            Replied {| success := false; message := msg_not_found |}]
  /\ fst (calls Memory.database None ops Memory.empty)
     = Normal [Recorded;
               Listed [];
               Counted {| total := 0; topTerms := [] |};
               Replied {| success := false; message := msg_delete_failed |};
               Replied {| success := false; message := msg_delete_failed |}]
  /\ (forall password ops' m, after Memory.database password ops' m = m)
  /\ (forall limit m,
        getHotSearches Memory.database limit m = (Normal [], m))
  /\ (forall args m,
        invoke (run (Memory.statement Memory.Handle)) args m
        = (Throw TypeError, m)).
Proof.
  split; [reflexivity|]. split; [reflexivity|].
  split; [apply Fallback.after_inert|].
  split; reflexivity.
Qed.

(** ** The content filter *)

Example forbidden_any_case :
  isForbidden (of_ascii "what the FuCk") = true
  /\ isForbidden (of_ascii "BITCHES") = true
  /\ isForbidden ([20170; 26085] ++ [36172; 21338] ++ [32593])%N = true
  /\ isForbidden (of_ascii "ship it") = false
  /\ isForbidden [30005; 24433]%N = false.
Proof. repeat split. Qed.

(** C5.  Recording a term the filter matches returns normally and leaves
    the state of the handle as it was, whatever the handle; and no listing
    and no statistics of a store that started empty ever contain such a
    term, whatever calls were made on it. *)
Theorem forbidden_term_is_dropped {S : Type} (db : Database S)
    (t : jsstring) (now : Z) (s : S) :
  isForbidden t = true ->
  recordSearch db t now s = (Normal tt, s)
  /\ forall (password : option jsstring) (ops : list op) (limit : Z),
       let tb := after Sqlite.database password ops Sql.empty in
       (exists items,
          getHotSearches Sqlite.database limit tb = (Normal items, tb)
          /\ ~ In t (map term items))
       /\ (exists stats,
             getStats Sqlite.database tb = (Normal stats, tb)
             /\ ~ In t (map term (topTerms stats))).
Proof.
  intros Hf. split.
  - unfold recordSearch. rewrite Hf. now destruct (blank t).
  - intros password ops limit tb.
    assert (Hc : consistent tb)
      by apply Invariant.consistent_after, Invariant.consistent_empty.
    assert (Hno : forall n, ~ In t (map term (ranked n tb))).
    { intros n Hin. apply in_map_iff in Hin as (x & E & Hx).
      apply ranked_In in Hx as (r & Hr & ->).
      pose proof (terms_accepted Hc) as Ha. rewrite Forall_forall in Ha.
      destruct (Ha r Hr) as [_ Hr']. cbn in E. congruence. }
    split.
    + eexists. split; [apply Durable.getHotSearches_eval|].
      destruct (_ <? limit); [apply Hno | intros []].
    + eexists. split; [apply Durable.getStats_eval | apply Hno].
Qed.

Lemma forbidden_term_is_dropped_witness :
  let t := of_ascii "Shit happens" in
  let ops :=
    [RecordSearch (of_ascii "a") 1; RecordSearch t 2; RecordSearch t 3] in
  recordSearch Probe.database t 4 0%nat = (Normal tt, 0%nat)
  /\ exists items,
       getHotSearches Sqlite.database 30
         (after Sqlite.database None ops Sql.empty)
       = (Normal items, after Sqlite.database None ops Sql.empty)
       /\ ~ In t (map term items).
Proof.
  intros t ops.
  destruct (forbidden_term_is_dropped Probe.database t 4 0%nat eq_refl)
    as [H1 H2].
  split; [exact H1|].
  destruct (H2 None ops 30) as [H3 _]. exact H3.
Defined.

(** ** Blank terms *)

Lemma blank_trim (t : jsstring) : length (trim t) = 0%nat -> blank t = true.
Proof.
  intros H. unfold blank. destruct t; [reflexivity|]. now rewrite H.
Qed.

(** C9, as stated, fails: recording a blank term is not rejected with an
    error; the call returns normally, as an accepted recording does. *)
Lemma blank_term_not_rejected :
  ~ exists e,
      fst (recordSearch Sqlite.database (of_ascii "  ") 1 Sql.empty) = Throw e.
Proof. intros [e H]. discriminate H. Qed.

(** C9, amended.  Recording a term whose trimmed length is 0 returns
    normally, without an error, and leaves the state of the handle as it
    was, whatever the handle: no statement is prepared or run. *)
Theorem blank_term_is_ignored {S : Type} (db : Database S)
    (t : jsstring) (now : Z) (s : S) :
  length (trim t) = 0%nat ->
  recordSearch db t now s = (Normal tt, s).
Proof.
  intros H. unfold recordSearch. now rewrite (blank_trim t H).
Qed.

(** On the counting handle: no call is made for a blank term, while an
    accepted one reaches the handle. *)
Lemma blank_term_is_ignored_witness :
  recordSearch Probe.database [32; 9; 12288]%N 1 0%nat = (Normal tt, 0%nat)
  /\ recordSearch Probe.database (of_ascii "a") 1 0%nat <> (Normal tt, 0%nat).
Proof.
  split.
  - apply (blank_term_is_ignored Probe.database [32; 9; 12288]%N 1 0%nat).
    reflexivity.
  - discriminate.
Defined.

(** ** Administration *)

(** C6, as stated, fails: the reply of [clearHotSearches] is the same
    whether one record was removed or two, so no count can be read off
    it. *)
Lemma clear_reply_has_no_count :
  ~ exists count_of, reply_carries_count count_of.
Proof.
  intros [count_of H].
  pose proof (H [RecordSearch (of_ascii "a") 1] _ _ eq_refl) as H1.
  pose proof (H [RecordSearch (of_ascii "a") 1; RecordSearch (of_ascii "b") 2]
                _ _ eq_refl) as H2.
  cbv in H1, H2. congruence.
Qed.

(** C6, amended.  On the durable handle, [clearHotSearches] with the
    correct password removes every row and replies with [success: true]
    and a fixed message; the reply does not tell how many rows went. *)
Theorem clear_removes_all (password : option jsstring) (pw : jsstring)
    (tb : Sql.Table) :
  pw = correctPassword password ->
  clearHotSearches Sqlite.database password pw tb
  = (Normal {| success := true; message := msg_cleared |},
     {| Sql.rows := []; Sql.seq := Sql.seq tb |})
  /\ Sql.count (snd (clearHotSearches Sqlite.database password pw tb)) = 0.
Proof.
  intros ->. rewrite Durable.clearHotSearches_eval, str_eqb_refl.
  split; reflexivity.
Qed.

Lemma clear_removes_all_witness :
  let tb := after Sqlite.database (Some (of_ascii "s3cret"))
              [RecordSearch (of_ascii "a") 1; RecordSearch (of_ascii "b") 2]
              Sql.empty in
  Sql.count tb = 2
  /\ clearHotSearches Sqlite.database (Some (of_ascii "s3cret"))
       (of_ascii "s3cret") tb
     = (Normal {| success := true; message := msg_cleared |},
        {| Sql.rows := []; Sql.seq := 2 |}).
Proof.
  intros tb. split; [reflexivity|].
  apply (@clear_removes_all (Some (of_ascii "s3cret")) (of_ascii "s3cret") tb).
  reflexivity.
Defined.

(** C7.  With a password other than the configured one, [deleteHotSearch]
    replies [success: false] with the wrong-password message and leaves
    the state of the handle as it was, whatever the handle.  That message
    is none of the other messages of [deleteHotSearch], and with the
    configured password the reply never carries it. *)
Theorem delete_requires_password {S : Type} (db : Database S)
    (password : option jsstring) (t pw : jsstring) (s : S) :
  pw <> correctPassword password ->
  deleteHotSearch db password t pw s
  = (Normal {| success := false; message := msg_wrong_password |}, s)
  /\ msg_wrong_password <> msg_delete_failed
  /\ msg_wrong_password <> msg_not_found
  /\ msg_wrong_password <> msg_deleted t
  /\ exists reply s',
       deleteHotSearch db password t (correctPassword password) s
       = (Normal reply, s')
       /\ message reply <> msg_wrong_password.
Proof.
  intros Hpw.
  split.
  { unfold deleteHotSearch. apply str_eqb_neq in Hpw. now rewrite Hpw. }
  split; [discriminate|]. split; [discriminate|]. split; [discriminate|].
  unfold deleteHotSearch. rewrite str_eqb_refl. cbn [negb].
  unfold try_catch, bind, invoke, read_changes, ret, throw.
  destruct (prepare db DELETE_TERM s) as [[stmt|e] s1];
    [|do 2 eexists; split; [reflexivity | discriminate]].
  destruct (run stmt) as [f|];
    [|do 2 eexists; split; [reflexivity | discriminate]].
  destruct (f [Str t] s1) as [[[r|]|e] s2];
    try (do 2 eexists; split; [reflexivity | discriminate]).
  destruct (0 <? changes r);
    do 2 eexists; split; try reflexivity; discriminate.
Qed.

Lemma delete_requires_password_witness :
  let tb :=
    after Sqlite.database None [RecordSearch (of_ascii "x") 1] Sql.empty in
  deleteHotSearch Sqlite.database None (of_ascii "x") (of_ascii "admin") tb
  = (Normal {| success := false; message := msg_wrong_password |}, tb)
  /\ deleteHotSearch Probe.database None (of_ascii "x") (of_ascii "") 0%nat
     = (Normal {| success := false; message := msg_wrong_password |}, 0%nat).
Proof.
  intros tb. split.
  - apply (@delete_requires_password _ Sqlite.database None (of_ascii "x")
             (of_ascii "admin") tb).
    discriminate.
  - apply (@delete_requires_password _ Probe.database None (of_ascii "x")
             (of_ascii "") 0%nat).
    discriminate.
Defined.

(** ** The limit of a listing *)

(** C8, as stated, fails: a negative limit is not treated as 0.  It
    reaches the statement as it is, where a negative [LIMIT] puts no bound
    on the rows, so the one stored record is listed. *)
Lemma negative_limit_lists_everything :
  let a := of_ascii "a" in
  let tb := after Sqlite.database None [RecordSearch a 1] Sql.empty in
  fst (getHotSearches Sqlite.database (-1) tb)
  = Normal [ {| term := a; score := 1; lastSearched := 1; createdAt := 1 |} ]
  /\ fst (getHotSearches Sqlite.database (clamp (-1)) tb) = Normal []
  /\ fst (getHotSearches Sqlite.database (-1) tb)
     <> fst (getHotSearches Sqlite.database (clamp (-1)) tb).
Proof.
  intros a tb. split; [reflexivity|]. split; [reflexivity|]. discriminate.
Qed.

Lemma ranked_length (n : Z) (tb : Sql.Table) :
  0 <= n -> Z.of_nat (length (ranked n tb)) = Z.min n (Sql.count tb).
Proof.
  intros Hn. unfold ranked, Sql.count.
  rewrite length_map, Eviction.limit_length by exact Hn.
  now rewrite SqlFacts.order_by_length.
Qed.

Lemma ranked_all (n : Z) (tb : Sql.Table) :
  n < 0 -> ranked n tb = map select_columns (Sql.order_by (Sql.rows tb)).
Proof.
  intros Hn. unfold ranked, Sql.limit.
  destruct (Z.ltb_spec n 0); [reflexivity | lia].
Qed.

(** C8, amended.  On a store that started empty, [getHotSearches] passes
    the smaller of [limit] and [MAX_ENTRIES] to the statement.  The result
    never has more than [MAX_ENTRIES] records; for a limit of 0 or more it
    is the listing for the limit clamped to the interval from 0 to
    [MAX_ENTRIES], namely the first so many records of the ranking, and
    empty for 0; for a negative limit above the least 64-bit integer it is
    every record of the store, in ranking order; for a limit at or below
    the least 64-bit integer the statement fails and the result is
    empty. *)
Theorem limit_is_capped (password : option jsstring) (ops : list op)
    (limit : Z) :
  let tb := after Sqlite.database password ops Sql.empty in
  exists items,
    getHotSearches Sqlite.database limit tb = (Normal items, tb)
    /\ Z.of_nat (length items) <= MAX_ENTRIES
    /\ (0 <= limit ->
        getHotSearches Sqlite.database (clamp limit) tb = (Normal items, tb)
        /\ items = map select_columns
                     (firstn (Z.to_nat (clamp limit))
                        (Sql.order_by (Sql.rows tb)))
        /\ Z.of_nat (length items) = Z.min (clamp limit) (Sql.count tb))
    /\ (limit = 0 -> items = [])
    /\ (-9223372036854775808 < limit < 0 ->
        items = map select_columns (Sql.order_by (Sql.rows tb)))
    /\ (limit <= -9223372036854775808 -> items = []).
Proof.
  intros tb.
  assert (Hc : consistent tb)
    by apply Invariant.consistent_after, Invariant.consistent_empty.
  pose proof (within_capacity Hc) as Hcap.
  eexists. split; [apply Durable.getHotSearches_eval|].
  destruct (Z.ltb_spec (-9223372036854775808) limit) as [Hlow|Hlow].
  - split; [|split; [|split; [|split]]].
    + destruct (Z.le_gt_cases 0 (Z.min limit MAX_ENTRIES)) as [Hn|Hn].
      * rewrite ranked_length by exact Hn. lia.
      * rewrite ranked_all by exact Hn.
        rewrite length_map, SqlFacts.order_by_length. exact Hcap.
    + intros Hl.
      assert (E : clamp limit = Z.min limit MAX_ENTRIES)
        by (unfold clamp, MAX_ENTRIES; lia).
      rewrite Durable.getHotSearches_listing
        by (unfold clamp, MAX_ENTRIES; lia).
      assert (E' : Z.min (clamp limit) MAX_ENTRIES = Z.min limit MAX_ENTRIES)
        by (unfold clamp, MAX_ENTRIES; lia).
      rewrite E', E. split; [reflexivity|]. split.
      * unfold ranked, Sql.limit.
        destruct (Z.ltb_spec (Z.min limit MAX_ENTRIES) 0);
          [unfold MAX_ENTRIES in *; lia | reflexivity].
      * apply ranked_length. unfold MAX_ENTRIES. lia.
    + intros ->. reflexivity.
    + intros Hl. apply ranked_all. unfold MAX_ENTRIES. lia.
    + intros Hl. lia.
  - split; [cbn; unfold MAX_ENTRIES; lia|].
    split; [intros Hl; lia|]. split; [reflexivity|].
    split; [intros Hl; lia | reflexivity].
Qed.

Lemma limit_is_capped_witness :
  let ops :=
    map (fun i => RecordSearch [N.of_nat i] (Z.of_nat i)) (seq 100 3) in
  let tb := after Sqlite.database None ops Sql.empty in
  map term (ranked 2 tb) = [[102]; [101]]%N
  /\ getHotSearches Sqlite.database 2 tb = (Normal (ranked 2 tb), tb)
  /\ map term (ranked (-7) tb) = [[102]; [101]; [100]]%N
  /\ getHotSearches Sqlite.database (-7) tb = (Normal (ranked (-7) tb), tb)
  /\ getHotSearches Sqlite.database (-9223372036854775808) tb
     = (Normal [], tb).
Proof.
  intros ops tb.
  split; [reflexivity|].
  destruct (limit_is_capped None ops 2) as (items & E & _ & H & _).
  destruct (H ltac:(lia)) as (_ & Hitems & _). rewrite Hitems in E.
  split; [exact E|].
  split; [reflexivity|].
  destruct (limit_is_capped None ops (-7))
    as (items' & E' & _ & _ & _ & H' & _).
  rewrite (H' ltac:(lia)) in E'.
  split; [exact E'|].
  destruct (limit_is_capped None ops (-9223372036854775808))
    as (items'' & E'' & _ & _ & _ & _ & H'').
  rewrite (H'' ltac:(lia)) in E''. exact E''.
Defined.

(** ** Statistics *)

(** C10.  Whatever the handle, [getStats] returns normally.  When a read
    of its [try] block throws (preparing or running the count query,
    preparing or running the top-ten query) the result is a total of 0 and
    no terms; and when the count query gives no row, the total is 0 beside
    the rows of the top-ten query. *)
Theorem getStats_contains_failures {S : Type} (db : Database S) (s : S) :
  (exists stats s', getStats db s = (Normal stats, s'))
  /\ (forall e s',
        getStats_try db s = (Throw e, s') ->
        getStats db s = (Normal {| total := 0; topTerms := [] |}, s'))
  /\ (forall e s1,
        prepare db SELECT_COUNT s = (Throw e, s1) ->
        getStats db s = (Normal {| total := 0; topTerms := [] |}, s1))
  /\ (forall countStmt s1 e s2,
        prepare db SELECT_COUNT s = (Normal countStmt, s1) ->
        invoke (get countStmt) [] s1 = (Throw e, s2) ->
        getStats db s = (Normal {| total := 0; topTerms := [] |}, s2))
  /\ (forall countStmt s1 countResult s2 e s3,
        prepare db SELECT_COUNT s = (Normal countStmt, s1) ->
        invoke (get countStmt) [] s1 = (Normal countResult, s2) ->
        prepare db SELECT_TOP10 s2 = (Throw e, s3) ->
        getStats db s = (Normal {| total := 0; topTerms := [] |}, s3))
  /\ (forall countStmt s1 countResult s2 topStmt s3 e s4,
        prepare db SELECT_COUNT s = (Normal countStmt, s1) ->
        invoke (get countStmt) [] s1 = (Normal countResult, s2) ->
        prepare db SELECT_TOP10 s2 = (Normal topStmt, s3) ->
        invoke (all topStmt) [] s3 = (Throw e, s4) ->
        getStats db s = (Normal {| total := 0; topTerms := [] |}, s4))
  /\ (forall countStmt s1 s2 topStmt s3 rows s4,
        prepare db SELECT_COUNT s = (Normal countStmt, s1) ->
        invoke (get countStmt) [] s1 = (Normal None, s2) ->
        prepare db SELECT_TOP10 s2 = (Normal topStmt, s3) ->
        invoke (all topStmt) [] s3 = (Normal rows, s4) ->
        getStats db s = (Normal {| total := 0; topTerms := rows |}, s4)).
Proof.
  split; [apply getStats_returns|].
  unfold getStats, getStats_try, try_catch, bind, ret.
  split.
  { intros e s' H. now rewrite H. }
  split.
  { intros e s1 H. now rewrite H. }
  split.
  { intros c s1 e s2 H1 H2. now rewrite H1, H2. }
  split.
  { intros c s1 r s2 e s3 H1 H2 H3. now rewrite H1, H2, H3. }
  split.
  { intros c s1 r s2 t s3 e s4 H1 H2 H3 H4. now rewrite H1, H2, H3, H4. }
  intros c s1 s2 t s3 rows s4 H1 H2 H3 H4.
  rewrite H1, H2, H3, H4. cbn [total_or_zero].
  now rewrite Durable.items_copy.
Qed.

(** The in-memory handle throws on the count query; the counting handle
    answers it with no row. *)
Lemma getStats_contains_failures_witness :
  getStats Memory.database Memory.empty
  = (Normal {| total := 0; topTerms := [] |}, Memory.empty)
  /\ getStats Probe.database 0%nat
     = (Normal {| total := 0; topTerms := [] |}, 4%nat).
Proof.
  split.
  - destruct (getStats_contains_failures Memory.database Memory.empty)
      as (_ & _ & _ & H & _).
    apply (H (Memory.statement Memory.Handle) Memory.empty TypeError);
      reflexivity.
  - destruct (getStats_contains_failures Probe.database 0%nat)
      as (_ & _ & _ & _ & _ & _ & H).
    apply (H Probe.statement 1%nat 2%nat Probe.statement 3%nat); reflexivity.
Defined.

(** ** Counting *)

Module Counting.

Lemma has_term_find (t : jsstring) (tb : Sql.Table) :
  Sql.has_term t tb
  = match Sql.find_term t tb with Some _ => true | None => false end.
Proof.
  unfold Sql.has_term, Sql.find_term.
  induction (Sql.rows tb) as [|r l IH]; simpl; [reflexivity|].
  now destruct (str_eqb (Sql.term r) t).
Qed.


Lemma find_app {A} (p : A -> bool) (l l' : list A) :
  find p (l ++ l')
  = match find p l with Some x => Some x | None => find p l' end.
Proof.
  induction l as [|x l IH]; simpl; [reflexivity|].
  now destruct (p x).
Qed.





Section Term.

Variables (password : option jsstring) (t : jsstring).
Hypothesis not_blank : blank t = false.
Hypothesis not_forbidden : isForbidden t = false.





End Term.

End Counting.



(** * Further properties *)

(** ** Whitespace and the content filter *)

Module Text.

Lemma trimStart_empty (s : jsstring) :
  trimStart s = [] <-> forallb is_white s = true.
Proof.
  induction s as [|c s IH]; simpl; [tauto|].
  destruct (is_white c); simpl; [exact IH|].
  split; discriminate.
Qed.

(** What [trimStart] drops is whitespace, and what it keeps does not
    start with whitespace. *)
Lemma trimStart_split (s : jsstring) :
  exists ws,
    s = ws ++ trimStart s /\ forallb is_white ws = true
    /\ match trimStart s with
       | c :: _ => is_white c = false
       | [] => True
       end.
Proof.
  induction s as [|c s (ws & E & Hw & Hh)]; simpl.
  - exists []. now repeat split.
  - destruct (is_white c) eqn:Hc.
    + exists (c :: ws). simpl. rewrite Hc, Hw. repeat split; [|exact Hh].
      now rewrite <- E.
    + exists []. now repeat split.
Qed.

Lemma all_white_rev (s : jsstring) :
  forallb is_white (rev s) = forallb is_white s.
Proof.
  induction s as [|c s IH]; [reflexivity|].
  simpl. rewrite forallb_app, IH. simpl.
  rewrite andb_true_r. apply andb_comm.
Qed.

(** [trim] cuts whitespace from both ends and nothing else. *)
Lemma trim_split (s : jsstring) :
  exists left right,
    s = left ++ trim s ++ right
    /\ forallb is_white left = true /\ forallb is_white right = true.
Proof.
  destruct (trimStart_split s) as (l & El & Hl & _).
  destruct (trimStart_split (rev (trimStart s))) as (r & Er & Hr & _).
  exists l, (rev r). unfold trim, trimEnd.
  split; [|split; [exact Hl | now rewrite all_white_rev]].
  rewrite <- rev_app_distr, <- Er, rev_involutive. exact El.
Qed.

Lemma trim_empty (s : jsstring) :
  trim s = [] <-> forallb is_white s = true.
Proof.
  unfold trim, trimEnd. split.
  - intros H.
    assert (H' : trimStart (rev (trimStart s)) = []).
    { rewrite <- (rev_involutive (trimStart _)), H. reflexivity. }
    apply trimStart_empty in H'. rewrite all_white_rev in H'.
    destruct (trimStart_split s) as (ws & E & Hw & Hh).
    destruct (trimStart s) as [|c rest] eqn:Et.
    + now apply trimStart_empty.
    + simpl in H'. rewrite Hh in H'. discriminate.
  - intros H. apply trimStart_empty in H. rewrite H. reflexivity.
Qed.

Lemma white_canonical (c : N) : is_white c = true -> canonicalize c = c.
Proof.
  unfold canonicalize.
  destruct ((97 <=? c)%N && (c <=? 122)%N) eqn:E; [|reflexivity].
  apply andb_true_iff in E as [E1 E2].
  apply N.leb_le in E1, E2. unfold is_white.
  intros H. exfalso.
  repeat (apply orb_true_iff in H as [H|H]);
    repeat match goal with
           | H : (_ && _)%bool = true |- _ => apply andb_true_iff in H as [? ?]
           | H : (_ <=? _)%N = true |- _ => apply N.leb_le in H
           | H : (_ =? _)%N = true |- _ => apply N.eqb_eq in H
           end; lia.
Qed.

Lemma solid_head (p c : N) :
  is_white (canonicalize p) = false -> is_white c = true ->
  N.eqb (canonicalize p) (canonicalize c) = false.
Proof.
  intros Hp Hc. rewrite (white_canonical c Hc).
  destruct (N.eqb_spec (canonicalize p) c) as [E|]; [|reflexivity].
  congruence.
Qed.

Lemma starts_white_end (word s : jsstring) (c : N) :
  solid word = true -> is_white c = true ->
  starts_with_ci word (s ++ [c]) = starts_with_ci word s.
Proof.
  intros Hs Hc. revert s. induction word as [|p word IH]; intros s.
  - now destruct s.
  - simpl in Hs. apply andb_true_iff in Hs as [Hp Hs].
    apply negb_true_iff in Hp.
    destruct s as [|d s]; simpl.
    + now rewrite (solid_head p c Hp Hc).
    + now rewrite IH.
Qed.

Lemma includes_white_end (word s : jsstring) (c : N) :
  solid word = true -> is_white c = true ->
  includes_ci word (s ++ [c]) = includes_ci word s.
Proof.
  intros Hs Hc. induction s as [|d s IH].
  - cbn [app includes_ci].
    change [c] with ([] ++ [c]). rewrite (starts_white_end word [] c Hs Hc).
    now destruct (starts_with_ci word []).
  - change ((d :: s) ++ [c]) with (d :: (s ++ [c])).
    cbn [includes_ci]. rewrite IH.
    change (d :: (s ++ [c])) with ((d :: s) ++ [c]).
    now rewrite (starts_white_end word (d :: s) c Hs Hc).
Qed.

Lemma includes_white_start (word s : jsstring) (c : N) :
  solid word = true -> is_white c = true ->
  includes_ci word (c :: s) = includes_ci word s.
Proof.
  intros Hs Hc. cbn [includes_ci].
  destruct word as [|p word]; [now destruct s|].
  simpl in Hs. apply andb_true_iff in Hs as [Hp _].
  apply negb_true_iff in Hp. cbn [starts_with_ci].
  now rewrite (solid_head p c Hp Hc).
Qed.

Lemma includes_white_around (word left s right : jsstring) :
  solid word = true ->
  forallb is_white left = true -> forallb is_white right = true ->
  includes_ci word (left ++ s ++ right) = includes_ci word s.
Proof.
  intros Hs Hl Hr.
  assert (E : includes_ci word (s ++ right) = includes_ci word s).
  { clear Hl left. revert s.
    induction right as [|c right IH]; intros s; [now rewrite app_nil_r|].
    simpl in Hr. apply andb_true_iff in Hr as [Hc Hr].
    change (s ++ c :: right) with (s ++ [c] ++ right).
    rewrite app_assoc, (IH Hr). now apply includes_white_end. }
  induction left as [|c left IH]; [exact E|].
  simpl in Hl. apply andb_true_iff in Hl as [Hc Hl].
  cbn [app]. rewrite includes_white_start by assumption. now apply IH.
Qed.

Lemma patterns_solid :
  forallb (forallb solid) forbiddenPatterns = true.
Proof. reflexivity. Qed.

Lemma same_verdict (s s' : jsstring) :
  (forall word, solid word = true ->
                includes_ci word s = includes_ci word s') ->
  isForbidden s = isForbidden s'.
Proof.
  intros H. unfold isForbidden, regex_test.
  pose proof patterns_solid as Hp.
  induction forbiddenPatterns as [|pattern rest IH]; [reflexivity|].
  cbn [forallb existsb] in *. apply andb_true_iff in Hp as [Hw Hp].
  rewrite (IH Hp). f_equal. clear IH Hp.
  induction pattern as [|word pattern IH]; [reflexivity|].
  cbn [forallb existsb] in *. apply andb_true_iff in Hw as [Hword Hw].
  now rewrite (IH Hw), (H word Hword).
Qed.

Lemma canonicalize_twice (c : N) :
  canonicalize (canonicalize c) = canonicalize c.
Proof.
  unfold canonicalize.
  destruct ((97 <=? c)%N && (c <=? 122)%N) eqn:E; [|now rewrite E].
  apply andb_true_iff in E as [E1 E2]. apply N.leb_le in E1, E2.
  destruct ((97 <=? c - 32)%N && (c - 32 <=? 122)%N) eqn:E'; [|reflexivity].
  apply andb_true_iff in E' as [E3 _]. apply N.leb_le in E3. lia.
Qed.

Lemma starts_folded (word s : jsstring) :
  starts_with_ci word (map canonicalize s) = starts_with_ci word s.
Proof.
  revert s. induction word as [|p word IH]; intros [|c s]; simpl;
    try reflexivity.
  now rewrite canonicalize_twice, IH.
Qed.

Lemma includes_folded (word s : jsstring) :
  includes_ci word (map canonicalize s) = includes_ci word s.
Proof.
  induction s as [|c s IH].
  - reflexivity.
  - cbn [map includes_ci]. rewrite IH.
    change (canonicalize c :: map canonicalize s)
      with (map canonicalize (c :: s)).
    now rewrite starts_folded.
Qed.

Lemma starts_longer (word s tail : jsstring) :
  starts_with_ci word s = true -> starts_with_ci word (s ++ tail) = true.
Proof.
  revert s. induction word as [|p word IH]; intros [|c s]; simpl;
    try reflexivity; try discriminate.
  intros H. apply andb_true_iff in H as [H1 H2].
  now rewrite H1, (IH s H2).
Qed.

Lemma includes_inside (word head s tail : jsstring) :
  includes_ci word s = true -> includes_ci word (head ++ s ++ tail) = true.
Proof.
  intros H.
  assert (E : includes_ci word (s ++ tail) = true).
  { induction s as [|c s IH].
    - cbn [includes_ci] in H. rewrite orb_false_r in H.
      destruct word; [now destruct tail | discriminate].
    - cbn [includes_ci] in H. apply orb_true_iff in H as [H|H].
      + change ((c :: s) ++ tail) with (c :: (s ++ tail)).
        cbn [includes_ci].
        change (c :: (s ++ tail)) with ((c :: s) ++ tail).
        now rewrite (starts_longer word (c :: s) tail H).
      + change ((c :: s) ++ tail) with (c :: (s ++ tail)).
        cbn [includes_ci]. rewrite (IH H). apply orb_true_r. }
  induction head as [|c head IH]; [exact E|].
  cbn [app includes_ci]. rewrite IH. apply orb_true_r.
Qed.

End Text.

(** X1.  A term is blank for [recordSearch] exactly when every one of its
    code units is whitespace (the empty term included). *)
Theorem blank_iff_all_whitespace (t : jsstring) :
  blank t = forallb is_white t.
Proof.
  destruct t as [|c t]; [reflexivity|].
  cbn [blank].
  destruct (forallb is_white (c :: t)) eqn:E.
  - apply Text.trim_empty in E. now rewrite E.
  - destruct (trim (c :: t)) as [|d rest] eqn:Et; [|reflexivity].
    apply Text.trim_empty in Et. congruence.
Qed.

(** X2.  The filter gives the same verdict on a term and on the term
    trimmed: whitespace around a term neither hides a forbidden word nor
    makes one. *)
Theorem filter_ignores_outer_whitespace (t : jsstring) :
  isForbidden (trim t) = isForbidden t.
Proof.
  destruct (Text.trim_split t) as (l & r & E & Hl & Hr).
  rewrite E at 2. apply Text.same_verdict.
  intros word Hw. symmetry. now apply Text.includes_white_around.
Qed.

(** X3.  The verdict of the filter depends only on the term with its
    ASCII letters put in upper case, and a term that contains a forbidden
    term is forbidden. *)
Theorem filter_folds_case_and_sees_inside :
  (forall s s',
      map canonicalize s = map canonicalize s' ->
      isForbidden s = isForbidden s')
  /\ (forall head s tail,
        isForbidden s = true -> isForbidden (head ++ s ++ tail) = true).
Proof.
  split.
  - intros s s' E. apply Text.same_verdict. intros word _.
    now rewrite <- (Text.includes_folded word s),
                <- (Text.includes_folded word s'), E.
  - intros head s tail H. unfold isForbidden, regex_test in *.
    apply existsb_exists in H as (pattern & Hp & H).
    apply existsb_exists in H as (word & Hw & H).
    apply existsb_exists. exists pattern. split; [exact Hp|].
    apply existsb_exists. exists word. split; [exact Hw|].
    now apply Text.includes_inside.
Qed.

Lemma filter_folds_case_and_sees_inside_witness :
  isForbidden (of_ascii "sHiT") = isForbidden (of_ascii "Shit")
  /\ isForbidden (of_ascii "bull" ++ of_ascii "shit" ++ of_ascii "ter") = true.
Proof.
  destruct filter_folds_case_and_sees_inside as [H1 H2].
  split.
  - apply (H1 (of_ascii "sHiT") (of_ascii "Shit")). reflexivity.
  - apply (H2 (of_ascii "bull") (of_ascii "shit") (of_ascii "ter")).
    reflexivity.
Defined.

(** ** What one recording does to the table *)

Module Frame.

Lemma limit_within (n : Z) (l : list Sql.Row) :
  Z.of_nat (length l) <= n -> Sql.limit n l = l.
Proof.
  intros H. unfold Sql.limit. destruct (n <? 0); [reflexivity|].
  apply firstn_all2. lia.
Qed.

(** Within the limit, the delete of [cleanupOldEntries] removes nothing. *)
Lemma delete_not_in_top_within (n : Z) (tb : Sql.Table) :
  Sql.count tb <= n -> Sql.delete_not_in_top n tb = tb.
Proof.
  intros H. unfold Sql.delete_not_in_top.
  rewrite limit_within
    by (rewrite SqlFacts.order_by_length; exact H).
  rewrite Eviction.select_every; [now destruct tb|].
  apply Forall_forall. intros r Hr. apply Eviction.in_ids_spec.
  apply in_map. now apply SqlFacts.order_by_In.
Qed.

Lemma insert_count (t : jsstring) (ls ca ls' : Z) (tb : Sql.Table) :
  Sql.count (Sql.insert_on_conflict t ls ca ls' tb)
  = if Sql.has_term t tb then Sql.count tb else Sql.count tb + 1.
Proof.
  unfold Sql.insert_on_conflict, Sql.count.
  destruct (Sql.has_term t tb); cbn [Sql.rows].
  - now rewrite length_map.
  - rewrite length_app. cbn [length]. lia.
Qed.





End Frame.

Lemma record_within_capacity (t : jsstring) (now : Z) (tb : Sql.Table) :
  accepted t = true -> Sql.count tb <= MAX_ENTRIES ->
  (Sql.has_term t tb = true ->
   recordSearch Sqlite.database t now tb
   = (Normal tt,
      {| Sql.rows := map (fun r => if str_eqb (Sql.term r) t
                                   then Sql.updated now r else r)
                       (Sql.rows tb);
         Sql.seq := Sql.seq tb + 1 |}))
  /\ (Sql.has_term t tb = false -> Sql.count tb < MAX_ENTRIES ->
      recordSearch Sqlite.database t now tb
      = (Normal tt,
         {| Sql.rows := Sql.rows tb
                        ++ [Sql.inserted (Sql.seq tb + 1) t now now];
            Sql.seq := Sql.seq tb + 1 |})).
Proof.
  intros Ha Hcap. rewrite Durable.recordSearch_eval.
  unfold accepted in Ha. apply negb_true_iff in Ha. rewrite Ha.
  split.
  - intros Hh. f_equal.
    rewrite Frame.delete_not_in_top_within
      by (rewrite Frame.insert_count, Hh; exact Hcap).
    unfold Sql.insert_on_conflict. now rewrite Hh.
  - intros Hh Hroom. f_equal.
    rewrite Frame.delete_not_in_top_within
      by (rewrite Frame.insert_count, Hh; lia).
    unfold Sql.insert_on_conflict. now rewrite Hh.
Qed.

(** X4.  On a table within capacity, recording an accepted, well-formed
    term touches one row and evicts nothing: a term already stored has its
    score raised by 1 and its last_searched set, every other row and the
    order of the rows staying as they were; a new term, when there is
    room, is added at the end as given (not trimmed), with score 1 and
    both times set to the time of the call.  Either way the id counter
    moves by one. *)
Theorem record_changes_one_row (t : jsstring) (now : Z) (tb : Sql.Table) :
  well_formed t = true ->
  accepted t = true -> Sql.count tb <= MAX_ENTRIES ->
  (Sql.has_term t tb = true ->
   recordSearch Sqlite.database t now tb
   = (Normal tt,
      {| Sql.rows := map (fun r => if str_eqb (Sql.term r) t
                                   then Sql.updated now r else r)
                       (Sql.rows tb);
         Sql.seq := Sql.seq tb + 1 |}))
  /\ (Sql.has_term t tb = false -> Sql.count tb < MAX_ENTRIES ->
      recordSearch Sqlite.database t now tb
      = (Normal tt,
         {| Sql.rows := Sql.rows tb
                        ++ [Sql.inserted (Sql.seq tb + 1) t now now];
            Sql.seq := Sql.seq tb + 1 |})).
Proof.
  intros _ Ha Hcap. split.
  - intros Hh. now apply (record_within_capacity t now tb Ha Hcap).
  - intros Hh Hroom. now apply (record_within_capacity t now tb Ha Hcap).
Qed.

Lemma record_changes_one_row_witness :
  let a := of_ascii " a" in
  let b := of_ascii "b" in
  let tb := after Sqlite.database None
              [RecordSearch a 1; RecordSearch b 2] Sql.empty in
  recordSearch Sqlite.database a 9 tb
  = (Normal tt,
     {| Sql.rows := [Sql.updated 9 (Sql.inserted 1 a 1 1);
                     Sql.inserted 2 b 2 2];
        Sql.seq := 3 |})
  /\ recordSearch Sqlite.database (of_ascii "a") 9 tb
     = (Normal tt,
        {| Sql.rows := [Sql.inserted 1 a 1 1; Sql.inserted 2 b 2 2;
                        Sql.inserted 3 (of_ascii "a") 9 9];
           Sql.seq := 3 |}).
Proof.
  intros a b tb.
  destruct (record_changes_one_row a 9 tb eq_refl eq_refl
              ltac:(discriminate)) as [H1 _].
  destruct (record_changes_one_row (of_ascii "a") 9 tb eq_refl eq_refl
              ltac:(discriminate)) as [_ H2].
  rewrite (H1 eq_refl), (H2 eq_refl eq_refl). split; reflexivity.
Defined.



(** X6.  From any table that satisfies the schema (distinct ids, none
    above the counter), however many rows it holds, one accepted
    recording leaves at most [MAX_ENTRIES] rows: exactly the smaller of
    [MAX_ENTRIES] and the count after the write. *)
Theorem capacity_is_restored (t : jsstring) (now : Z) (tb : Sql.Table) :
  accepted t = true ->
  NoDup (map Sql.id (Sql.rows tb)) ->
  Forall (fun r => Sql.id r <= Sql.seq tb) (Sql.rows tb) ->
  let tb' := snd (recordSearch Sqlite.database t now tb) in
  Sql.count tb'
  = Z.min MAX_ENTRIES (Sql.count (Sql.insert_on_conflict t now now now tb))
  /\ Sql.count tb' <= MAX_ENTRIES.
Proof.
  intros Ha Hid Hseq tb'. subst tb'. rewrite Durable.recordSearch_eval.
  unfold accepted in Ha. apply negb_true_iff in Ha. rewrite Ha. cbn [snd].
  destruct (Invariant.insert_ids t now now now tb Hid Hseq) as [I1 _].
  rewrite Eviction.delete_not_in_top_count
    by (exact I1 || (unfold MAX_ENTRIES; lia)).
  split; [reflexivity | lia].
Qed.

(** A table of 60 rows, as a larger limit would have left it. *)
Lemma capacity_is_restored_witness :
  let tb := {| Sql.rows := map (fun i => Sql.inserted (Z.of_nat i)
                                           [N.of_nat i] 1 (Z.of_nat i))
                             (seq 100 60);
               Sql.seq := 159 |} in
  Sql.count tb = 60
  /\ Sql.count (snd (recordSearch Sqlite.database (of_ascii "a") 7 tb)) = 50.
Proof.
  intros tb. split; [reflexivity|].
  assert (Hid : NoDup (map Sql.id (Sql.rows tb))).
  { cbn [tb Sql.rows]. rewrite map_map. cbn [Sql.inserted Sql.id].
    apply (Finite.Injective_map_NoDup (f := Z.of_nat));
      [intros x y; apply Nat2Z.inj | apply seq_NoDup]. }
  assert (Hseq : Forall (fun r => Sql.id r <= Sql.seq tb) (Sql.rows tb)).
  { apply Forall_forall. intros r Hr. cbn [tb Sql.rows Sql.seq] in *.
    apply in_map_iff in Hr as (i & <- & Hi). apply in_seq in Hi.
    cbn [Sql.inserted Sql.id]. lia. }
  destruct (capacity_is_restored (of_ascii "a") 7 tb eq_refl Hid Hseq)
    as [H _].
  rewrite H. reflexivity.
Defined.

(** X7.  [cleanupOldEntries] never throws on the durable handle, removes
    nothing from a table of at most [MAX_ENTRIES] rows, keeps the rows it
    leaves in their order, and with distinct ids a second run right after
    the first changes nothing. *)
Theorem cleanup_is_idempotent (tb : Sql.Table) :
  cleanupOldEntries Sqlite.database tb
  = (Normal tt, Sql.delete_not_in_top MAX_ENTRIES tb)
  /\ (exists keep,
        Sql.rows (Sql.delete_not_in_top MAX_ENTRIES tb)
        = filter keep (Sql.rows tb))
  /\ (Sql.count tb <= MAX_ENTRIES ->
      cleanupOldEntries Sqlite.database tb = (Normal tt, tb))
  /\ (NoDup (map Sql.id (Sql.rows tb)) ->
      cleanupOldEntries Sqlite.database
        (snd (cleanupOldEntries Sqlite.database tb))
      = cleanupOldEntries Sqlite.database tb).
Proof.
  assert (E : forall tb0,
             cleanupOldEntries Sqlite.database tb0
             = (Normal tt, Sql.delete_not_in_top MAX_ENTRIES tb0))
    by reflexivity.
  split; [apply E|].
  split; [eexists; reflexivity|].
  split.
  - intros H. rewrite E. now rewrite Frame.delete_not_in_top_within.
  - intros Hid. rewrite !E. cbn [snd]. f_equal.
    apply Frame.delete_not_in_top_within.
    rewrite Eviction.delete_not_in_top_count
      by (exact Hid || (unfold MAX_ENTRIES; lia)).
    lia.
Qed.

Lemma cleanup_is_idempotent_witness :
  let tb := after Sqlite.database None
              [RecordSearch (of_ascii "a") 1; RecordSearch (of_ascii "b") 2]
              Sql.empty in
  cleanupOldEntries Sqlite.database tb = (Normal tt, tb)
  /\ cleanupOldEntries Sqlite.database
       (snd (cleanupOldEntries Sqlite.database tb))
     = cleanupOldEntries Sqlite.database tb.
Proof.
  intros tb.
  destruct (cleanup_is_idempotent tb) as (_ & _ & H1 & H2).
  split.
  - apply H1. discriminate.
  - apply H2. repeat constructor; simpl; intuition discriminate.
Defined.

(** ** Sequences of recordings *)

Module Sequences.

Lemma has_term_terms (t : jsstring) (tb : Sql.Table) :
  Sql.has_term t tb = existsb (str_eqb t) (map Sql.term (Sql.rows tb)).
Proof.
  unfold Sql.has_term.
  induction (Sql.rows tb) as [|r l IH]; [reflexivity|].
  cbn [existsb map]. now rewrite IH, str_eqb_sym.
Qed.

Lemma distinct_snoc (ts : list jsstring) (t : jsstring) :
  distinct (ts ++ [t]) = add_term (distinct ts) t.
Proof. unfold distinct. now rewrite fold_left_app. Qed.

Lemma add_term_grows (seen : list jsstring) (t : jsstring) :
  (length seen <= length (add_term seen t))%nat.
Proof.
  unfold add_term. destruct (existsb _ seen); [lia|].
  rewrite length_app. cbn. lia.
Qed.

Lemma record_state (password : option jsstring) (t : jsstring) (now : Z)
    (tb : Sql.Table) :
  transition password (RecordSearch t now) tb
  = snd (recordSearch Sqlite.database t now tb).
Proof. now rewrite Durable.recordSearch_eval. Qed.

Lemma terms_after (password : option jsstring) (l : list (jsstring * Z)) :
  let ts := distinct (filter accepted (map fst l)) in
  Z.of_nat (length ts) <= MAX_ENTRIES ->
  map Sql.term
    (Sql.rows (after Sqlite.database password
                 (map (fun c => RecordSearch (fst c) (snd c)) l) Sql.empty))
  = ts.
Proof.
  induction l as [|[t now] l IH] using rev_ind; [reflexivity|].
  cbv zeta in *. rewrite !map_app, filter_app. cbn [map fst snd filter].
  rewrite Durable.after_snoc, record_state.
  set (tb := after Sqlite.database password _ Sql.empty) in *.
  set (D := distinct (filter accepted (map fst l))) in *.
  destruct (accepted t) eqn:Ha.
  - rewrite distinct_snoc. fold D. intros Hlen.
    pose proof (add_term_grows D t) as Hg.
    specialize (IH ltac:(lia)).
    assert (Hcount : Sql.count tb = Z.of_nat (length D))
      by (unfold Sql.count; now rewrite <- IH, length_map).
    assert (Hcap : Sql.count tb <= MAX_ENTRIES) by lia.
    destruct (record_within_capacity t now tb Ha Hcap) as [Hup Hin].
    pose proof (has_term_terms t tb) as Hh. rewrite IH in Hh.
    unfold add_term in *. destruct (existsb (str_eqb t) D).
    + rewrite (Hup Hh). cbn [snd Sql.rows]. rewrite map_map, <- IH.
      apply map_ext. intros r. now destruct (str_eqb _ _).
    + rewrite length_app in Hlen. cbn [length] in Hlen.
      rewrite (Hin Hh ltac:(lia)). cbn [snd Sql.rows].
      now rewrite map_app, IH.
  - rewrite app_nil_r. intros Hlen. specialize (IH Hlen).
    rewrite Durable.recordSearch_eval.
    unfold accepted in Ha. apply negb_false_iff in Ha. now rewrite Ha.
Qed.

End Sequences.

(** X8.  After a sequence of recordings of well-formed terms on a new
    store, in which the accepted terms are at most [MAX_ENTRIES] different
    ones, the store holds exactly these terms, each once, in the order in
    which they first came, and the total of [getStats] is their number. *)
Theorem distinct_terms_are_counted (password : option jsstring)
    (l : list (jsstring * Z)) :
  let ops := map (fun c => RecordSearch (fst c) (snd c)) l in
  let tb := after Sqlite.database password ops Sql.empty in
  let ts := distinct (filter accepted (map fst l)) in
  forallb well_formed (map fst l) = true ->
  Z.of_nat (length ts) <= MAX_ENTRIES ->
  map Sql.term (Sql.rows tb) = ts
  /\ fst (getStats Sqlite.database tb)
     = Normal {| total := Z.of_nat (length ts); topTerms := ranked 10 tb |}.
Proof.
  intros ops tb ts _ Hlen.
  pose proof (Sequences.terms_after password l Hlen) as H.
  fold ops in H. fold tb in H. fold ts in H.
  split; [exact H|].
  rewrite Durable.getStats_eval. cbn [fst]. unfold Sql.count.
  now rewrite <- H, length_map.
Qed.

Lemma distinct_terms_are_counted_witness :
  let a := of_ascii "a" in
  let b := of_ascii "b" in
  let l := [(a, 1); (b, 2); (of_ascii "  ", 3); (a, 4);
            (of_ascii "shit", 5); (b, 6); (a, 7)] in
  let tb := after Sqlite.database None
              (map (fun c => RecordSearch (fst c) (snd c)) l) Sql.empty in
  map Sql.term (Sql.rows tb) = [a; b]
  /\ fst (getStats Sqlite.database tb)
     = Normal {| total := 2; topTerms := ranked 10 tb |}.
Proof.
  intros a b l tb.
  apply (distinct_terms_are_counted None l); [reflexivity | discriminate].
Defined.



(** ** Deleting and clearing *)

Module Removal.

Lemma delete_absent (t : jsstring) (tb : Sql.Table) :
  Sql.has_term t tb = false -> Sql.delete_term t tb = tb.
Proof.
  intros H. unfold Sql.delete_term.
  rewrite Eviction.select_every; [now destruct tb|].
  apply Forall_forall. intros r Hr.
  destruct (str_eqb (Sql.term r) t) eqn:E; [|reflexivity].
  exfalso. unfold Sql.has_term in H.
  assert (Hex : existsb (fun r0 => str_eqb (Sql.term r0) t) (Sql.rows tb)
                = true)
    by (apply existsb_exists; now exists r).
  congruence.
Qed.

Lemma delete_gone (t : jsstring) (tb : Sql.Table) :
  Sql.has_term t (Sql.delete_term t tb) = false.
Proof.
  unfold Sql.has_term, Sql.delete_term. cbn [Sql.rows].
  induction (Sql.rows tb) as [|r l IH]; [reflexivity|].
  cbn [filter]. destruct (str_eqb (Sql.term r) t) eqn:E; cbn [negb].
  - exact IH.
  - cbn [existsb]. now rewrite E.
Qed.

Lemma delete_other (t t' : jsstring) (tb : Sql.Table) :
  t' <> t ->
  Sql.find_term t' (Sql.delete_term t tb) = Sql.find_term t' tb.
Proof.
  intros Hne. unfold Sql.find_term, Sql.delete_term. cbn [Sql.rows].
  induction (Sql.rows tb) as [|r l IH]; [reflexivity|].
  cbn [filter find].
  destruct (str_eqb (Sql.term r) t) eqn:E; cbn [negb].
  - apply str_eqb_eq in E.
    assert (N : str_eqb (Sql.term r) t' = false)
      by (apply str_eqb_neq; congruence).
    now rewrite N.
  - cbn [find]. now rewrite IH.
Qed.

(** [result.changes > 0] tells whether the term was there. *)
Lemma delete_changes (t : jsstring) (tb : Sql.Table) :
  (0 <? Sql.count tb - Sql.count (Sql.delete_term t tb))
  = Sql.has_term t tb.
Proof.
  unfold Sql.count, Sql.delete_term, Sql.has_term. cbn [Sql.rows].
  induction (Sql.rows tb) as [|r l IH]; [reflexivity|].
  cbn [filter existsb].
  destruct (str_eqb (Sql.term r) t); cbn [negb orb].
  - pose proof (Invariant.selection_is_smaller
                  (fun r0 => negb (str_eqb (Sql.term r0) t)) l).
    apply Z.ltb_lt. cbn [length]. lia.
  - rewrite <- IH. cbn [length].
    destruct (Z.ltb_spec 0
                (Z.of_nat (length l)
                 - Z.of_nat (length (filter
                      (fun r0 => negb (str_eqb (Sql.term r0) t)) l))));
      [apply Z.ltb_lt | apply Z.ltb_ge]; lia.
Qed.

(** With [term] unique, deleting a stored term removes one row. *)
Lemma delete_one (t : jsstring) (tb : Sql.Table) :
  NoDup (map Sql.term (Sql.rows tb)) -> Sql.has_term t tb = true ->
  Sql.count (Sql.delete_term t tb) = Sql.count tb - 1.
Proof.
  unfold Sql.count, Sql.delete_term, Sql.has_term. cbn [Sql.rows].
  induction (Sql.rows tb) as [|r l IH]; intros Hnd Hh; [discriminate|].
  cbn [map] in Hnd. apply NoDup_cons_iff in Hnd as [Hr Hnd].
  cbn [filter existsb] in *.
  destruct (str_eqb (Sql.term r) t) eqn:E; cbn [negb orb] in *.
  - rewrite Eviction.select_every; [cbn [length]; lia|].
    apply Forall_forall. intros r' Hr'.
    destruct (str_eqb (Sql.term r') t) eqn:E'; [|reflexivity].
    exfalso. apply Hr. apply str_eqb_eq in E, E'. rewrite E, <- E'.
    now apply in_map.
  - cbn [length]. specialize (IH Hnd Hh). lia.
Qed.

End Removal.

(** X10.  On a store that started empty and was only given well-formed
    terms, [deleteHotSearch] of a well-formed term with the configured
    password removes the row of exactly that term (compared
    as given, case and whitespace included) and replies with success, or,
    when the term is not stored, replies that it does not exist and
    changes nothing; the rows of all other terms stay as they were. *)
Theorem delete_removes_that_term (password : option jsstring)
    (ops : list op) (t pw : jsstring) :
  let tb := after Sqlite.database password ops Sql.empty in
  ops_well_formed ops = true -> well_formed t = true ->
  pw = correctPassword password ->
  deleteHotSearch Sqlite.database password t pw tb
  = (Normal (if Sql.has_term t tb
             then {| success := true; message := msg_deleted t |}
             else {| success := false; message := msg_not_found |}),
     Sql.delete_term t tb)
  /\ Sql.has_term t (Sql.delete_term t tb) = false
  /\ (forall t', t' <> t ->
                 Sql.find_term t' (Sql.delete_term t tb)
                 = Sql.find_term t' tb)
  /\ (Sql.has_term t tb = false -> Sql.delete_term t tb = tb)
  /\ (Sql.has_term t tb = true ->
      Sql.count (Sql.delete_term t tb) = Sql.count tb - 1).
Proof.
  intros tb _ _ ->.
  assert (Hc : consistent tb)
    by apply Invariant.consistent_after, Invariant.consistent_empty.
  split.
  { rewrite Durable.deleteHotSearch_eval, str_eqb_refl.
    now rewrite Removal.delete_changes. }
  split; [apply Removal.delete_gone|].
  split; [intros t'; apply Removal.delete_other|].
  split; [apply Removal.delete_absent|].
  apply Removal.delete_one, Hc.
Qed.

Lemma delete_removes_that_term_witness :
  let a := of_ascii "a" in
  let pw := of_ascii "admin123" in
  let ops := [RecordSearch a 1; RecordSearch (of_ascii "A") 2] in
  let tb := after Sqlite.database None ops Sql.empty in
  deleteHotSearch Sqlite.database None a pw tb
  = (Normal {| success := true; message := msg_deleted a |},
     Sql.delete_term a tb)
  /\ Sql.find_term (of_ascii "A") (Sql.delete_term a tb)
     = Sql.find_term (of_ascii "A") tb
  /\ Sql.count (Sql.delete_term a tb) = 1.
Proof.
  intros a pw ops tb.
  destruct (@delete_removes_that_term None ops a pw eq_refl eq_refl eq_refl)
    as (H1 & _ & H2 & _ & H3).
  split; [exact H1|].
  split; [apply H2; discriminate|].
  exact (H3 eq_refl).
Defined.

(** X11.  On a store that was only given well-formed terms, deleting a
    stored term and recording it again starts it over: the new row has
    score 1 and both times set to the time of the recording, whatever the
    score was before, it is the last row of the table and its id is the
    next one of the counter. *)
Theorem delete_then_record_starts_over (password : option jsstring)
    (ops : list op) (t pw : jsstring) (now : Z) :
  let tb := after Sqlite.database password ops Sql.empty in
  let tb' := after Sqlite.database password
               (ops ++ [DeleteHotSearch t pw; RecordSearch t now])
               Sql.empty in
  ops_well_formed ops = true ->
  pw = correctPassword password -> Sql.has_term t tb = true ->
  Sql.rows tb'
  = Sql.rows (Sql.delete_term t tb)
    ++ [Sql.inserted (Sql.seq tb + 1) t now now]
  /\ Sql.find_term t tb' = Some (Sql.inserted (Sql.seq tb + 1) t now now).
Proof.
  intros tb tb' _ -> Hh. subst tb'.
  assert (Hc : consistent tb)
    by apply Invariant.consistent_after, Invariant.consistent_empty.
  rewrite after_app. fold tb. rewrite !Durable.after_step, after_nil.
  cbn [transition]. rewrite str_eqb_refl.
  change (if blank t || isForbidden t then ?x else ?y)
    with (transition password (RecordSearch t now) x).
  rewrite Sequences.record_state.
  assert (Ha : accepted t = true).
  { rewrite Counting.has_term_find in Hh.
    destruct (Sql.find_term t tb) as [r|] eqn:Hr; [|discriminate].
    apply find_some in Hr as [Hin Ht]. apply str_eqb_eq in Ht.
    pose proof (terms_accepted Hc) as Hacc. rewrite Forall_forall in Hacc.
    destruct (Hacc r Hin) as [Hb Hf]. rewrite Ht in Hb, Hf.
    unfold accepted. now rewrite Hb, Hf. }
  pose proof (Removal.delete_one t tb (terms_unique Hc) Hh) as Hone.
  pose proof (within_capacity Hc) as Hcap.
  destruct (record_within_capacity t now (Sql.delete_term t tb) Ha
              ltac:(lia)) as [_ H].
  rewrite (H (Removal.delete_gone t tb) ltac:(lia)).
  cbn [snd Sql.rows Sql.seq Sql.delete_term]. split; [reflexivity|].
  unfold Sql.find_term. cbn [Sql.rows]. rewrite Counting.find_app.
  pose proof (Removal.delete_gone t tb) as Hg.
  rewrite Counting.has_term_find in Hg. unfold Sql.find_term in Hg.
  cbn [Sql.delete_term Sql.rows] in Hg.
  destruct (find _ (filter _ (Sql.rows tb))); [discriminate|].
  cbn. now rewrite str_eqb_refl.
Qed.

Lemma delete_then_record_starts_over_witness :
  let a := of_ascii "a" in
  let ops := [RecordSearch a 1; RecordSearch a 2; RecordSearch a 3] in
  Sql.find_term a
    (after Sqlite.database None
       (ops ++ [DeleteHotSearch a (of_ascii "admin123"); RecordSearch a 9])
       Sql.empty)
  = Some (Sql.inserted 4 a 9 9).
Proof.
  intros a ops.
  apply (@delete_then_record_starts_over None ops a (of_ascii "admin123") 9);
    reflexivity.
Defined.

(** X12.  With a password other than the configured one,
    [clearHotSearches] replies with the wrong-password message and leaves
    the state of the handle as it was, whatever the handle; that message
    is neither of its two other messages, and with the configured
    password the reply never carries it. *)
Theorem clear_requires_password {S : Type} (db : Database S)
    (password : option jsstring) (pw : jsstring) (s : S) :
  pw <> correctPassword password ->
  clearHotSearches db password pw s
  = (Normal {| success := false; message := msg_wrong_password |}, s)
  /\ msg_wrong_password <> msg_cleared
  /\ msg_wrong_password <> msg_clear_failed
  /\ exists reply s',
       clearHotSearches db password (correctPassword password) s
       = (Normal reply, s')
       /\ message reply <> msg_wrong_password.
Proof.
  intros Hpw. split.
  { unfold clearHotSearches. apply str_eqb_neq in Hpw. now rewrite Hpw. }
  split; [discriminate|]. split; [discriminate|].
  unfold clearHotSearches. rewrite str_eqb_refl. cbn [negb].
  unfold try_catch, bind, invoke, ret, throw.
  destruct (prepare db DELETE_ALL s) as [[stmt|e] s1];
    [|do 2 eexists; split; [reflexivity | discriminate]].
  destruct (run stmt) as [f|];
    [|do 2 eexists; split; [reflexivity | discriminate]].
  destruct (f [] s1) as [[r|e] s2];
    do 2 eexists; split; try reflexivity; discriminate.
Qed.

Lemma clear_requires_password_witness :
  let tb :=
    after Sqlite.database None [RecordSearch (of_ascii "x") 1] Sql.empty in
  clearHotSearches Sqlite.database None (of_ascii "Admin123") tb
  = (Normal {| success := false; message := msg_wrong_password |}, tb)
  /\ clearHotSearches Probe.database None (of_ascii "admin1234") 0%nat
     = (Normal {| success := false; message := msg_wrong_password |}, 0%nat).
Proof.
  intros tb. split.
  - apply (@clear_requires_password _ Sqlite.database None
             (of_ascii "Admin123") tb).
    discriminate.
  - apply (@clear_requires_password _ Probe.database None
             (of_ascii "admin1234") 0%nat).
    discriminate.
Defined.

(** X13.  The configured password is never the empty string: when
    HOT_SEARCH_PASSWORD is unset or empty it is 'admin123', otherwise it
    is the variable as it stands.  So an empty password is refused by
    [deleteHotSearch] and by [clearHotSearches] whatever the
    configuration and the handle, and nothing is changed. *)
Theorem empty_password_is_refused {S : Type} (db : Database S)
    (password : option jsstring) (t : jsstring) (s : S) :
  correctPassword password <> []
  /\ correctPassword None = of_ascii "admin123"
  /\ correctPassword (Some []) = of_ascii "admin123"
  /\ (forall c rest, correctPassword (Some (c :: rest)) = c :: rest)
  /\ deleteHotSearch db password t [] s
     = (Normal {| success := false; message := msg_wrong_password |}, s)
  /\ clearHotSearches db password [] s
     = (Normal {| success := false; message := msg_wrong_password |}, s).
Proof.
  assert (H : correctPassword password <> [])
    by (destruct password as [[|c rest]|]; discriminate).
  split; [exact H|].
  split; [reflexivity|]. split; [reflexivity|]. split; [reflexivity|].
  assert (E : str_eqb [] (correctPassword password) = false)
    by (apply str_eqb_neq; congruence).
  unfold deleteHotSearch, clearHotSearches. rewrite E. now split.
Qed.

(** ** Listings and statistics *)

Module Listing.

Lemma ranked_prefix (k : Z) (tb : Sql.Table) :
  0 <= k ->
  ranked k tb
  = firstn (Z.to_nat k) (map select_columns (Sql.order_by (Sql.rows tb))).
Proof.
  intros Hk. unfold ranked, Sql.limit.
  destruct (Z.ltb_spec k 0); [lia|]. now rewrite firstn_map.
Qed.

(** Every listing is the head of the full ranking. *)
Lemma ranked_head (n : Z) (tb : Sql.Table) :
  exists rest,
    map select_columns (Sql.order_by (Sql.rows tb)) = ranked n tb ++ rest.
Proof.
  unfold ranked, Sql.limit. destruct (n <? 0).
  - exists []. now rewrite app_nil_r.
  - exists (map select_columns
              (skipn (Z.to_nat n) (Sql.order_by (Sql.rows tb)))).
    now rewrite <- map_app, firstn_skipn.
Qed.

Lemma item_before_spec (a b : Sql.Row) :
  Sql.before a b = true ->
  item_before (select_columns a) (select_columns b).
Proof. intros H. apply SqlFacts.before_spec in H. exact H. Qed.

Lemma ranking_sorted (tb : Sql.Table) :
  StronglySorted item_before
    (map select_columns (Sql.order_by (Sql.rows tb))).
Proof.
  pose proof (SqlFacts.order_by_sorted (Sql.rows tb)) as H.
  induction H as [|r l _ IH Hr]; cbn [map]; constructor; [exact IH|].
  apply Forall_map. eapply Forall_impl; [|exact Hr].
  intros b. apply item_before_spec.
Qed.

Lemma sorted_head (items rest : list HotSearchItem) :
  StronglySorted item_before (items ++ rest) ->
  StronglySorted item_before items.
Proof.
  induction items as [|x items IH]; intros H; [constructor|].
  cbn [app] in H. inversion H as [|? ? Hs Hx]; subst.
  constructor; [now apply IH|].
  apply Forall_app in Hx. apply Hx.
Qed.

Lemma sorted_selection (keep : HotSearchItem -> bool)
    (items : list HotSearchItem) :
  StronglySorted item_before items ->
  StronglySorted item_before (filter keep items).
Proof.
  induction 1 as [|x items _ IH Hx]; cbn [filter]; [constructor|].
  destruct (keep x); [|exact IH].
  constructor; [exact IH|].
  apply Forall_forall. intros y Hy. apply filter_In in Hy as [Hy _].
  rewrite Forall_forall in Hx. now apply Hx.
Qed.

Lemma terms_of_ranking (tb : Sql.Table) :
  NoDup (map Sql.term (Sql.rows tb)) ->
  NoDup (map term (map select_columns (Sql.order_by (Sql.rows tb)))).
Proof.
  intros H. rewrite map_map. cbn [select_columns term].
  eapply Permutation_NoDup; [|exact H].
  apply Permutation_map, SqlFacts.order_by_perm.
Qed.

Lemma distinct_head (items rest : list HotSearchItem) :
  NoDup (map term (items ++ rest)) -> NoDup (map term items).
Proof. rewrite map_app. apply NoDup_app_remove_r. Qed.

Lemma distinct_selection (keep : HotSearchItem -> bool)
    (items : list HotSearchItem) :
  NoDup (map term items) -> NoDup (map term (filter keep items)).
Proof.
  intros Hd. induction items as [|x items IH]; [constructor|].
  cbn [map] in Hd. apply NoDup_cons_iff in Hd as [Hx Hd].
  cbn [filter]. destruct (keep x); [|now apply IH].
  cbn [map]. constructor; [|now apply IH].
  rewrite in_map_iff. intros (y & E & Hy). apply Hx.
  rewrite <- E. apply in_map. now apply filter_In in Hy.
Qed.

End Listing.

(** X14.  On a store that started empty the statistics agree with the
    listings: the total is the length of the full listing, the top terms
    are the first ten records of any listing asked with a limit of ten or
    more, or with a negative one above the least 64-bit integer, and there
    are ten of them or as many as the store holds. *)
Theorem stats_agree_with_listing (password : option jsstring)
    (ops : list op) (limit : Z) :
  let tb := after Sqlite.database password ops Sql.empty in
  exists stats items full,
    getStats Sqlite.database tb = (Normal stats, tb)
    /\ getHotSearches Sqlite.database limit tb = (Normal items, tb)
    /\ getHotSearches Sqlite.database MAX_ENTRIES tb = (Normal full, tb)
    /\ total stats = Z.of_nat (length full)
    /\ Z.of_nat (length (topTerms stats)) = Z.min 10 (total stats)
    /\ (10 <= limit \/ -9223372036854775808 < limit < 0 ->
        topTerms stats = firstn 10 items).
Proof.
  intros tb.
  assert (Hc : consistent tb)
    by apply Invariant.consistent_after, Invariant.consistent_empty.
  pose proof (within_capacity Hc) as Hcap.
  do 3 eexists.
  split; [apply Durable.getStats_eval|].
  split; [apply Durable.getHotSearches_eval|].
  split; [apply Durable.getHotSearches_listing; unfold MAX_ENTRIES; lia|].
  cbn [total topTerms].
  split; [|split].
  - change (Z.min MAX_ENTRIES MAX_ENTRIES) with MAX_ENTRIES.
    rewrite ranked_length by (unfold MAX_ENTRIES; lia). lia.
  - apply ranked_length. lia.
  - intros Hl.
    assert (Hlow : (-9223372036854775808 <? limit) = true)
      by (apply Z.ltb_lt; lia).
    rewrite Hlow. destruct Hl as [Hl|Hl].
    + rewrite !Listing.ranked_prefix by (unfold MAX_ENTRIES; lia).
      rewrite firstn_firstn. f_equal. unfold MAX_ENTRIES. lia.
    + rewrite (@ranked_all (Z.min limit MAX_ENTRIES) tb)
        by (unfold MAX_ENTRIES; lia).
      now rewrite Listing.ranked_prefix by lia.
Qed.

Lemma stats_agree_with_listing_witness :
  let ops :=
    map (fun i => RecordSearch [N.of_nat i] (Z.of_nat i)) (seq 100 12) in
  let tb := after Sqlite.database None ops Sql.empty in
  exists stats items,
    getStats Sqlite.database tb = (Normal stats, tb)
    /\ getHotSearches Sqlite.database 30 tb = (Normal items, tb)
    /\ Z.of_nat (length (topTerms stats)) = Z.min 10 (total stats)
    /\ topTerms stats = firstn 10 items.
Proof.
  intros ops tb.
  destruct (stats_agree_with_listing None ops 30)
    as (stats & items & full & H1 & H2 & _ & _ & H4 & H5).
  exists stats, items.
  split; [exact H1|]. split; [exact H2|]. split; [exact H4|].
  apply H5. left. lia.
Defined.

(** X15.  On a store that started empty a listing holds no term twice, is
    in ranking order (higher score first, then later last-searched time
    first), shows only terms that are neither blank nor forbidden, each
    with a score of at least 1, and the listing for a smaller limit is the
    beginning of the listing for a larger one. *)
Theorem listing_is_well_formed (password : option jsstring)
    (ops : list op) (limit : Z) :
  let tb := after Sqlite.database password ops Sql.empty in
  exists items,
    getHotSearches Sqlite.database limit tb = (Normal items, tb)
    /\ NoDup (map term items)
    /\ StronglySorted item_before items
    /\ Forall (fun x => 1 <= score x /\ blank (term x) = false
                        /\ isForbidden (term x) = false) items
    /\ forall k,
         0 <= k <= limit ->
         getHotSearches Sqlite.database k tb
         = (Normal (firstn (Z.to_nat k) items), tb).
Proof.
  intros tb.
  assert (Hc : consistent tb)
    by apply Invariant.consistent_after, Invariant.consistent_empty.
  eexists. split; [apply Durable.getHotSearches_eval|].
  destruct (Z.ltb_spec (-9223372036854775808) limit) as [Hlow|Hlow].
  2:{ split; [constructor|]. split; [constructor|]. split; [constructor|].
      intros k Hk. lia. }
  destruct (Listing.ranked_head (Z.min limit MAX_ENTRIES) tb) as (rest & E).
  split; [|split; [|split]].
  - apply (Listing.distinct_head _ rest). rewrite <- E.
    apply Listing.terms_of_ranking, Hc.
  - apply (Listing.sorted_head _ rest). rewrite <- E.
    apply Listing.ranking_sorted.
  - apply Forall_forall. intros x Hx.
    apply ranked_In in Hx as (r & Hr & ->).
    pose proof (terms_accepted Hc) as Ha.
    pose proof (scores_positive Hc) as Hs.
    rewrite Forall_forall in Ha, Hs.
    destruct (Ha r Hr) as [Hb Hf]. specialize (Hs r Hr).
    cbn. now repeat split.
  - intros k Hk. rewrite Durable.getHotSearches_listing by lia.
    f_equal. f_equal.
    rewrite !Listing.ranked_prefix by (unfold MAX_ENTRIES; lia).
    rewrite firstn_firstn. f_equal. unfold MAX_ENTRIES. lia.
Qed.

Lemma listing_is_well_formed_witness :
  let ops :=
    map (fun i => RecordSearch [N.of_nat i] (Z.of_nat i)) (seq 100 5) in
  let tb := after Sqlite.database None ops Sql.empty in
  exists items,
    getHotSearches Sqlite.database 4 tb = (Normal items, tb)
    /\ getHotSearches Sqlite.database 2 tb
       = (Normal (firstn (Z.to_nat 2) items), tb).
Proof.
  intros ops tb.
  destruct (listing_is_well_formed None ops 4) as (items & E & _ & _ & _ & H).
  exists items. split; [exact E|]. apply (H 2). lia.
Defined.

(** ** A handle that refuses its statements *)

Module Refusal.

Section Refused.

Context {S : Type} (db : Database S) (password : option jsstring) (s : S).

Hypothesis refused : forall q, exists e, prepare db q s = (Throw e, s).

Lemma recordSearch_refused (t : jsstring) (now : Z) :
  recordSearch db t now s = (Normal tt, s).
Proof.
  unfold recordSearch.
  destruct (blank t); [reflexivity|].
  destruct (isForbidden t); [reflexivity|].
  unfold try_catch, bind.
  destruct (refused INSERT_ON_CONFLICT) as [e ->]. reflexivity.
Qed.

Lemma getHotSearches_refused (limit : Z) :
  getHotSearches db limit s = (Normal [], s).
Proof.
  unfold getHotSearches, try_catch, bind.
  destruct (refused SELECT_RANKED) as [e ->]. reflexivity.
Qed.

Lemma getStats_refused :
  getStats db s = (Normal {| total := 0; topTerms := [] |}, s).
Proof.
  unfold getStats, getStats_try, try_catch, bind.
  destruct (refused SELECT_COUNT) as [e ->]. reflexivity.
Qed.

Lemma deleteHotSearch_refused (t pw : jsstring) :
  deleteHotSearch db password t pw s
  = (Normal {| success := false;
               message := if str_eqb pw (correctPassword password)
                          then msg_delete_failed else msg_wrong_password |},
     s).
Proof.
  unfold deleteHotSearch. destruct (str_eqb _ _); [|reflexivity].
  unfold try_catch, bind. cbn [negb].
  destruct (refused DELETE_TERM) as [e ->]. reflexivity.
Qed.

Lemma clearHotSearches_refused (pw : jsstring) :
  clearHotSearches db password pw s
  = (Normal {| success := false;
               message := if str_eqb pw (correctPassword password)
                          then msg_clear_failed else msg_wrong_password |},
     s).
Proof.
  unfold clearHotSearches. destruct (str_eqb _ _); [|reflexivity].
  unfold try_catch, bind. cbn [negb].
  destruct (refused DELETE_ALL) as [e ->]. reflexivity.
Qed.

Lemma after_refused (ops : list op) : after db password ops s = s.
Proof.
  induction ops as [|o ops IH]; [reflexivity|].
  rewrite after_cons.
  assert (E : snd (call db password o s) = s).
  { destruct o as [t now|limit|t pw|pw|]; unfold call, bind.
    - now rewrite recordSearch_refused.
    - now rewrite getHotSearches_refused.
    - now rewrite deleteHotSearch_refused.
    - now rewrite clearHotSearches_refused.
    - now rewrite getStats_refused. }
  now rewrite E.
Qed.

End Refused.

End Refusal.

(** X16.  When the handle refuses to prepare any statement and is left
    unchanged by the attempt, no call throws and none changes anything:
    a recording is lost silently, a listing is empty, the statistics are
    a total of 0 with no terms, and with the configured password
    [deleteHotSearch] and [clearHotSearches] reply with their own failure
    messages; so it is after any sequence of calls. *)
Theorem refused_statements_are_contained {S : Type} (db : Database S)
    (password : option jsstring) (s : S) :
  (forall q, exists e, prepare db q s = (Throw e, s)) ->
  (forall t now, recordSearch db t now s = (Normal tt, s))
  /\ (forall limit, getHotSearches db limit s = (Normal [], s))
  /\ getStats db s = (Normal {| total := 0; topTerms := [] |}, s)
  /\ (forall t,
        deleteHotSearch db password t (correctPassword password) s
        = (Normal {| success := false; message := msg_delete_failed |}, s))
  /\ clearHotSearches db password (correctPassword password) s
     = (Normal {| success := false; message := msg_clear_failed |}, s)
  /\ forall ops, after db password ops s = s.
Proof.
  intros H.
  split; [apply (Refusal.recordSearch_refused db H)|].
  split; [apply (Refusal.getHotSearches_refused db H)|].
  split; [apply (Refusal.getStats_refused db H)|].
  split.
  { intros t. rewrite (Refusal.deleteHotSearch_refused db password H).
    now rewrite str_eqb_refl. }
  split.
  { rewrite (Refusal.clearHotSearches_refused db password H).
    now rewrite str_eqb_refl. }
  apply (Refusal.after_refused db password H).
Qed.

Lemma refused_statements_are_contained_witness :
  let s := {| Connection.is_open := false; Connection.table := Sql.empty |} in
  getHotSearches Connection.database 30 s = (Normal [], s)
  /\ deleteHotSearch Connection.database None (of_ascii "a")
       (of_ascii "admin123") s
     = (Normal {| success := false; message := msg_delete_failed |}, s).
Proof.
  intros s.
  destruct (@refused_statements_are_contained _ Connection.database None s)
    as (_ & H1 & _ & H2 & _).
  - intros q. exists TypeError. reflexivity.
  - split; [apply H1 | apply (H2 (of_ascii "a"))].
Defined.

(** ** Closing *)

Module Closing.

Lemma recordSearch_open (t : jsstring) (now : Z) (tb : Sql.Table) :
  recordSearch Connection.database t now (Connection.opened tb)
  = (Normal tt,
     Connection.opened (snd (recordSearch Sqlite.database t now tb))).
Proof.
  unfold recordSearch.
  destruct (blank t); [reflexivity|].
  destruct (isForbidden t); reflexivity.
Qed.

Lemma getHotSearches_open (limit : Z) (tb : Sql.Table) :
  getHotSearches Connection.database limit (Connection.opened tb)
  = (fst (getHotSearches Sqlite.database limit tb), Connection.opened tb).
Proof.
  unfold getHotSearches, try_catch, bind. cbn.
  destruct (Sql.limit_ok (Z.min limit MAX_ENTRIES)); reflexivity.
Qed.

Lemma getStats_open (tb : Sql.Table) :
  getStats Connection.database (Connection.opened tb)
  = (fst (getStats Sqlite.database tb), Connection.opened tb).
Proof. reflexivity. Qed.

Lemma clearHotSearches_open (password : option jsstring) (pw : jsstring)
    (tb : Sql.Table) :
  clearHotSearches Connection.database password pw (Connection.opened tb)
  = (fst (clearHotSearches Sqlite.database password pw tb),
     Connection.opened
       (snd (clearHotSearches Sqlite.database password pw tb))).
Proof. unfold clearHotSearches. destruct (negb _); reflexivity. Qed.

Lemma deleteHotSearch_open (password : option jsstring) (t pw : jsstring)
    (tb : Sql.Table) :
  deleteHotSearch Connection.database password t pw (Connection.opened tb)
  = (fst (deleteHotSearch Sqlite.database password t pw tb),
     Connection.opened
       (snd (deleteHotSearch Sqlite.database password t pw tb))).
Proof.
  unfold deleteHotSearch. destruct (negb _); [reflexivity|].
  unfold try_catch, bind. cbn.
  destruct (0 <? _); reflexivity.
Qed.

Lemma call_open (password : option jsstring) (o : op) (tb : Sql.Table) :
  call Connection.database password o (Connection.opened tb)
  = (fst (call Sqlite.database password o tb),
     Connection.opened (snd (call Sqlite.database password o tb))).
Proof.
  destruct o as [t now|limit|t pw|pw|]; unfold call, bind.
  - rewrite recordSearch_open.
    destruct (recordSearch_returns Sqlite.database t now tb) as (tb' & ->).
    reflexivity.
  - rewrite getHotSearches_open.
    destruct (getHotSearches_returns Sqlite.database limit tb)
      as (x & tb' & E).
    rewrite E. pose proof E as E'.
    rewrite Durable.getHotSearches_eval in E'. now injection E' as _ <-.
  - rewrite deleteHotSearch_open.
    destruct (deleteHotSearch_returns Sqlite.database password t pw tb)
      as (x & tb' & ->).
    reflexivity.
  - rewrite clearHotSearches_open.
    destruct (clearHotSearches_returns Sqlite.database password pw tb)
      as (x & tb' & ->).
    reflexivity.
  - rewrite getStats_open.
    destruct (getStats_returns Sqlite.database tb) as (x & tb' & E).
    rewrite E. pose proof E as E'.
    rewrite Durable.getStats_eval in E'. now injection E' as _ <-.
Qed.

Lemma calls_open (password : option jsstring) (ops : list op)
    (tb : Sql.Table) :
  calls Connection.database password ops (Connection.opened tb)
  = (fst (calls Sqlite.database password ops tb),
     Connection.opened (after Sqlite.database password ops tb)).
Proof.
  revert tb. induction ops as [|o ops IH]; intros tb; [reflexivity|].
  rewrite after_cons. cbn [calls]. unfold bind at 1 3.
  rewrite call_open.
  destruct (call_returns Sqlite.database password o tb) as (a & tb' & ->).
  cbn [fst snd]. unfold bind at 1 2. rewrite IH.
  destruct (calls_returns Sqlite.database password ops tb') as (rest & ->).
  reflexivity.
Qed.

End Closing.

(** X17.  While the connection is open the service on it behaves as on
    the table itself.  [close()] closes the connection and leaves the
    table as it is; after it no call changes the table and every listing
    is empty.  On the in-memory handle, which has no [close], [close()]
    does nothing. *)
Theorem close_keeps_the_table (password : option jsstring)
    (ops ops' : list op) (tb : Sql.Table) (m : Memory.Store) :
  calls Connection.database password ops (Connection.opened tb)
  = (fst (calls Sqlite.database password ops tb),
     Connection.opened (after Sqlite.database password ops tb))
  /\ (let s := snd (close (Some Connection.close_db)
                      (Connection.opened tb)) in
      fst (close (Some Connection.close_db) (Connection.opened tb))
      = Normal tt
      /\ Connection.table s = tb
      /\ after Connection.database password ops' s = s
      /\ forall limit,
           getHotSearches Connection.database limit s = (Normal [], s))
  /\ close None m = (Normal tt, m).
Proof.
  split; [apply Closing.calls_open|].
  split; [|reflexivity].
  cbn [close Connection.close_db Connection.opened snd fst
       Connection.table].
  assert (H : forall q,
             exists e,
               prepare Connection.database q
                 {| Connection.is_open := false; Connection.table := tb |}
               = (Throw e, {| Connection.is_open := false;
                              Connection.table := tb |}))
    by (intros q; exists TypeError; reflexivity).
  split; [reflexivity|]. split; [reflexivity|].
  split.
  - apply (Refusal.after_refused Connection.database password H).
  - apply (Refusal.getHotSearches_refused Connection.database H).
Qed.

(** ** The tabs of the widget *)

Module TabsFacts.
Import HotSearchTabs.

Lemma startsWith_spec (word s : jsstring) :
  startsWith word s = true <-> exists tail, s = word ++ tail.
Proof.
  revert s. induction word as [|p word IH]; intros s.
  - split; [intros _; now exists s | reflexivity].
  - destruct s as [|c s]; cbn [startsWith].
    + split; [discriminate | intros [tail E]; discriminate E].
    + rewrite andb_true_iff, N.eqb_eq, IH. split.
      * intros [-> [tail ->]]. now exists tail.
      * intros [tail E]. injection E as -> ->. split; [reflexivity|].
        now exists tail.
Qed.

(** [includes] finds the word somewhere in the string. *)
Lemma includes_spec (word s : jsstring) :
  includes word s = true <-> exists head tail, s = head ++ word ++ tail.
Proof.
  induction s as [|c s IH]; cbn [includes]; rewrite orb_true_iff.
  - rewrite startsWith_spec. split.
    + intros [[tail E]|H]; [|discriminate]. now exists [], tail.
    + intros (head & tail & E). left.
      destruct head; [now exists tail | discriminate].
  - rewrite startsWith_spec, IH. split.
    + intros [[tail E]|(head & tail & E)].
      * now exists [], tail.
      * exists (c :: head), tail. now rewrite E.
    + intros ([|d head] & tail & E).
      * left. now exists tail.
      * right. injection E as -> ->. now exists head, tail.
Qed.

Lemma matches_spec (tab : Tab) (item : HotSearchItem) :
  matches tab item = true <->
  exists keyword head tail,
    In keyword (keywords tab) /\ term item = head ++ keyword ++ tail.
Proof.
  unfold matches. rewrite existsb_exists. split.
  - intros (keyword & Hk & H). apply includes_spec in H as (h & tl & E).
    now exists keyword, h, tl.
  - intros (keyword & h & tl & Hk & E). exists keyword.
    split; [exact Hk|]. apply includes_spec. now exists h, tl.
Qed.

(** Whatever the tab, what is shown is a selection of the list. *)
Lemma filtered_selection (currentTab : jsstring)
    (allSearches : list HotSearchItem) :
  exists keep,
    filteredSearches currentTab allSearches = filter keep allSearches.
Proof.
  assert (Hall : allSearches = filter (fun _ => true) allSearches).
  { induction allSearches as [|x l IH]; [reflexivity|].
    cbn [filter]. now rewrite <- IH. }
  unfold filteredSearches.
  destruct (str_eqb currentTab (of_ascii "all"));
    [now exists (fun _ => true)|].
  destruct (find _ tabs) as [tab|]; [|now exists (fun _ => true)].
  destruct (Nat.eqb _ 0); [now exists (fun _ => true)|].
  now exists (matches tab).
Qed.

(** The keys of the table are distinct: a key finds its own tab. *)
Lemma find_tab (tab : Tab) :
  In tab tabs -> find (fun t => str_eqb (key t) (key tab)) tabs = Some tab.
Proof.
  intros H. repeat (destruct H as [<-|H]; [reflexivity|]). destruct H.
Qed.

End TabsFacts.

(** X18.  The widget shows the whole list on the tab 'all' and on a key
    that is no tab; on any other tab it shows, in the order of the list,
    exactly the items whose term contains one of the keywords of the tab
    as it is written (case matters). *)
Theorem filteredSearches_spec (currentTab : jsstring)
    (allSearches : list HotSearchItem) :
  (currentTab = of_ascii "all"
   \/ (forall tab, In tab HotSearchTabs.tabs ->
                   HotSearchTabs.key tab <> currentTab) ->
   HotSearchTabs.filteredSearches currentTab allSearches = allSearches)
  /\ (forall tab,
        In tab HotSearchTabs.tabs -> HotSearchTabs.key tab = currentTab ->
        currentTab <> of_ascii "all" ->
        HotSearchTabs.filteredSearches currentTab allSearches
        = filter (HotSearchTabs.matches tab) allSearches
        /\ forall item,
             In item (HotSearchTabs.filteredSearches currentTab allSearches)
             <-> In item allSearches
                 /\ exists keyword head tail,
                      In keyword (HotSearchTabs.keywords tab)
                      /\ term item = head ++ keyword ++ tail).
Proof.
  split.
  - intros [->|H]; [reflexivity|].
    unfold HotSearchTabs.filteredSearches.
    destruct (str_eqb currentTab (of_ascii "all")); [reflexivity|].
    destruct (find _ HotSearchTabs.tabs) as [tab|] eqn:E; [|reflexivity].
    apply find_some in E as [Hin Hk]. apply str_eqb_eq in Hk.
    now destruct (H tab Hin).
  - intros tab Hin <- Hne.
    assert (E : HotSearchTabs.filteredSearches (HotSearchTabs.key tab)
                  allSearches
                = filter (HotSearchTabs.matches tab) allSearches).
    { unfold HotSearchTabs.filteredSearches.
      apply str_eqb_neq in Hne. rewrite Hne.
      rewrite (TabsFacts.find_tab Hin).
      destruct (Nat.eqb_spec (length (HotSearchTabs.keywords tab)) 0)
        as [Hz|]; [|reflexivity].
      exfalso. clear - Hin Hne Hz.
      repeat (destruct Hin as [<-|Hin]; [discriminate|]). destruct Hin. }
    split; [exact E|].
    intros item. rewrite E, filter_In. now rewrite TabsFacts.matches_spec.
Qed.

Lemma filteredSearches_spec_witness :
  let movie := {| term := [30005; 24433; 49]%N; score := 3;
                  lastSearched := 5; createdAt := 1 |} in
  let app := {| term := of_ascii "app store"; score := 2;
                lastSearched := 4; createdAt := 2 |} in
  HotSearchTabs.filteredSearches (of_ascii "movie") [movie; app] = [movie]
  /\ HotSearchTabs.filteredSearches (of_ascii "software") [movie; app] = []
  /\ HotSearchTabs.filteredSearches (of_ascii "books") [movie; app]
     = [movie; app].
Proof.
  intros movie app.
  destruct (filteredSearches_spec (of_ascii "movie") [movie; app])
    as [_ H1].
  destruct (filteredSearches_spec (of_ascii "software") [movie; app])
    as [_ H2].
  destruct (filteredSearches_spec (of_ascii "books") [movie; app])
    as [H3 _].
  split; [|split].
  - destruct (H1 (nth 1 HotSearchTabs.tabs
                    {| HotSearchTabs.key := []; HotSearchTabs.label := [];
                       HotSearchTabs.icon := [];
                       HotSearchTabs.keywords := [] |}))
      as [E _]; [right; left; reflexivity | reflexivity | discriminate |].
    rewrite E. reflexivity.
  - destruct (H2 (nth 2 HotSearchTabs.tabs
                    {| HotSearchTabs.key := []; HotSearchTabs.label := [];
                       HotSearchTabs.icon := [];
                       HotSearchTabs.keywords := [] |}))
      as [E _];
      [right; right; left; reflexivity | reflexivity | discriminate |].
    rewrite E. reflexivity.
  - apply H3. right. intros tab Hin.
    repeat (destruct Hin as [<-|Hin]; [discriminate|]). destruct Hin.
Defined.

(** X19.  When the list of the widget is what [getHotSearches(30)] gives
    on a store that started empty, then on every tab the items shown are
    items of that listing, at most 30, in ranking order, and no two have
    the same term (the term is the key of the rendered list). *)
Theorem widget_shows_ranked_distinct_terms (password : option jsstring)
    (ops : list op) (currentTab : jsstring) :
  let tb := after Sqlite.database password ops Sql.empty in
  exists allSearches,
    getHotSearches Sqlite.database 30 tb = (Normal allSearches, tb)
    /\ let shown := HotSearchTabs.filteredSearches currentTab allSearches in
       (forall item, In item shown -> In item allSearches)
       /\ (length shown <= 30)%nat
       /\ StronglySorted item_before shown
       /\ NoDup (map term shown).
Proof.
  intros tb.
  assert (Hc : consistent tb)
    by apply Invariant.consistent_after, Invariant.consistent_empty.
  eexists. split; [apply Durable.getHotSearches_listing; lia|].
  change (Z.min 30 MAX_ENTRIES) with 30.
  destruct (TabsFacts.filtered_selection currentTab (ranked 30 tb))
    as (keep & E).
  cbv zeta. rewrite E.
  destruct (Listing.ranked_head 30 tb) as (rest & Er).
  split; [|split; [|split]].
  - intros item Hi. now apply filter_In in Hi.
  - assert (Hl : (length (ranked 30 tb) <= 30)%nat).
    { rewrite Listing.ranked_prefix by lia. apply firstn_le_length. }
    assert (Hf : (length (filter keep (ranked 30 tb))
                  <= length (ranked 30 tb))%nat).
    { clear. induction (ranked 30 tb) as [|x l IH]; [apply le_n|].
      cbn [filter]. destruct (keep x); cbn [length]; lia. }
    lia.
  - apply Listing.sorted_selection, (Listing.sorted_head _ rest).
    rewrite <- Er. apply Listing.ranking_sorted.
  - apply Listing.distinct_selection, (Listing.distinct_head _ rest).
    rewrite <- Er. apply Listing.terms_of_ranking, Hc.
Qed.

(** ** A newcomer in a full store *)




(** ** Counting, one recording after the other *)

Module Runs.



Section Term.

Variables (password : option jsstring) (t : jsstring).
Hypothesis not_blank : blank t = false.
Hypothesis not_forbidden : isForbidden t = false.





End Term.

End Runs.


